(** * Voice-assistant front end: a model of the client and its properties

    The development follows the TypeScript sources:
    - [src/services/api.ts]          the axios client and its request interceptor,
    - [src/hooks/useAudioRecorder.ts] the audio-capture hook,
    - [src/app/page.tsx]             the voice-flow page,
    - [src/components/*.tsx]         the guards the components put on the handlers,
    - [src/app/admin/**]             the back-office pages.

    Handlers are asynchronous functions with [try]/[catch]; they are written
    here in a small state-and-exception monad whose state is the page's React
    state together with the part of the browser the code touches (console,
    local storage, media streams, recorders, the requests sent).  Whatever the
    browser or the backend decides (does the microphone open, does a call
    succeed) is read from an environment [Env]. *)

From Stdlib Require Import ZArith Lia.
From Stdlib Require QArith.
From stdpp Require Import base option list strings gmap.

Open Scope string_scope.
Open Scope list_scope.

(** ** JavaScript odds and ends *)

(** The double-quote character, used inside template literals. *)
Definition dquote : string := String (Ascii.ascii_of_nat 34) EmptyString.

(** Errors that travel through [throw] / rejected promises. *)
Inductive JsError : Type :=
| Error (message : string)          (* new Error(message) *)
| DOMException (name : string)      (* raised by the media APIs *)
| AxiosError (message : string).    (* a failed HTTP exchange *)

(** Truthiness of a [string | null] value: [null] and [''] are falsy. *)
Definition truthy (s : option string) : bool :=
  match s with
  | Some "" => false
  | Some _ => true
  | None => false
  end.

(** A [Blob]: its bytes and its MIME type. *)
Record Blob : Type := mkBlob { blob_data : list Z; blob_type : string }.

Definition blob_size (b : Blob) : nat := length (blob_data b).

(** [new Blob(parts, { type })] *)
Definition new_Blob (parts : list Blob) (type : string) : Blob :=
  mkBlob (concat (map blob_data parts)) type.

(** Values of object literals sent to the browser or the backend. *)
#[warnings="-register-all"]
Inductive Json : Type :=
| JUndefined
| JNull
| JBool (b : bool)
| JNum (n : Z)
| JStr (s : string)
| JObj (fields : list (string * Json)).

(** Property access [o.k] on an object literal. *)
Fixpoint js_get (k : string) (fields : list (string * Json)) : Json :=
  match fields with
  | [] => JUndefined
  | (k', v) :: rest => if String.eqb k k' then v else js_get k rest
  end.

(** ** Outcomes and the handler monad *)

(** What awaiting a computation can give: a value, a thrown error (a rejected
    promise), or nothing at all when the awaited promise never settles. *)
Inductive Res (A : Type) : Type :=
| Val (a : A)
| Exn (e : JsError)
| Hang.
Arguments Val {A} a.
Arguments Exn {A} e.
Arguments Hang {A}.

Definition M (S A : Type) : Type := S -> Res A * S.

Definition ret {S A} (a : A) : M S A := fun s => (Val a, s).

Definition bind {S A B} (m : M S A) (k : A -> M S B) : M S B :=
  fun s =>
    match m s with
    | (Val a, s') => k a s'
    | (Exn e, s') => (Exn e, s')
    | (Hang, s') => (Hang, s')
    end.

Definition throw {S A} (e : JsError) : M S A := fun s => (Exn e, s).

Definition get {S} : M S S := fun s => (Val s, s).

Definition modify {S} (f : S -> S) : M S unit := fun s => (Val tt, f s).

(** [try { m } catch (err) { h err }]: writes done by [m] before it threw stay. *)
Definition try_catch {S A} (m : M S A) (h : JsError -> M S A) : M S A :=
  fun s =>
    match m s with
    | (Exn e, s') => h e s'
    | r => r
    end.

(** [try { m } finally { f }] for a [finally] block that does not throw. *)
Definition try_finally {S A} (m : M S A) (f : M S unit) : M S A :=
  fun s =>
    match m s with
    | (Hang, s') => (Hang, s')
    | (r, s') => (r, snd (f s'))
    end.

(** A call that is started and not awaited ([loadUsers();]): it runs, and
    whatever it resolves to is dropped. *)
Definition fire_and_forget {S A} (m : M S A) : M S unit :=
  fun s => (Val tt, snd (m s)).

Declare Scope js_scope.
Delimit Scope js_scope with js.
Notation "x <- m ;; k" := (bind m (fun x => k))
  (at level 100, m at next level, right associativity) : js_scope.
Notation "m ;; k" := (bind m (fun _ => k))
  (at level 100, right associativity) : js_scope.
Open Scope js_scope.

Definition exec {S A} (m : M S A) (s : S) : S := snd (m s).
Definition result {S A} (m : M S A) (s : S) : Res A := fst (m s).

(** ** The browser as the client sees it *)

Inductive ReadyState : Type := live | ended.          (* MediaStreamTrack.readyState *)
Inductive RecordingState : Type := rs_inactive | rs_recording | rs_paused.

Record MediaRecorder : Type := mkMediaRecorder {
  mr_stream : nat;                 (* index of its stream in [streams] *)
  mr_mimeType : string;
  mr_state : RecordingState;
  mr_timeslice : option Z
}.

(** An HTTP request as it leaves the client. *)
Inductive Body : Type :=
| NoBody
| JsonBody (fields : list (string * Json))
| FormData (parts : list (string * Blob * string))     (* name, blob, filename *)
| UrlEncoded (fields : list (string * string)).

Record Request : Type := mkRequest {
  req_method : string;
  req_url : string;
  req_headers : gmap string string;
  req_params : list (string * Json);
  req_body : Body
}.

Record Browser : Type := mkBrowser {
  console : list (string * JsError);              (* console.error(label, err) *)
  localStorage : gmap string string;
  streams : list (list ReadyState);               (* every stream handed out, by index *)
  recorders : list MediaRecorder;                 (* every recorder built, by index *)
  constraints_asked : list (list (string * Json)); (* arguments of getUserMedia *)
  sent : list Request;                             (* requests issued, oldest first *)
  rejections : list Request                         (* ghost: those answered by a rejection *)
}.

Definition empty_browser : Browser := mkBrowser [] ∅ [] [] [] [] [].

(** A component's state next to the browser it runs in. *)
Record World (P : Type) : Type := mkWorld { view : P; browser : Browser }.
Arguments mkWorld {P} view browser.
Arguments view {P} w.
Arguments browser {P} w.

Definition on_view {P} (f : P -> P) : M (World P) unit :=
  modify (fun w => mkWorld (f (view w)) (browser w)).
Definition on_browser {P} (f : Browser -> Browser) : M (World P) unit :=
  modify (fun w => mkWorld (view w) (f (browser w))).
Definition get_view {P} : M (World P) P := w <- get ;; ret (view w).
Definition get_browser {P} : M (World P) Browser := w <- get ;; ret (browser w).

(** Runs [m], written for a component [Q], on the part of [P] that holds it. *)
Definition zoom {P Q A} (part : P -> Q) (put : Q -> P -> P) (m : M (World Q) A)
  : M (World P) A :=
  fun w =>
    let '(r, wq) := m (mkWorld (part (view w)) (browser w)) in
    (r, mkWorld (put (view wq) (view w)) (browser wq)).

Definition console_error {P} (label : string) (err : JsError) : M (World P) unit :=
  on_browser (fun b =>
    mkBrowser (console b ++ [(label, err)]) (localStorage b) (streams b)
              (recorders b) (constraints_asked b) (sent b) (rejections b)).

(** ** The API client ([src/services/api.ts]) *)

(** A JavaScript [number] that need not be an integer. *)
Definition number : Type := QArith_base.Q.

(** Response payloads of the voice endpoints. *)
Record SessionResponse : Type := mkSessionResponse { session_id : string }.

Record TranscribeResponse : Type := mkTranscribeResponse {
  turn_id : string;
  raw_transcript : string;
  normalized_transcript : string;
  confidence : number;
  stt_latency_ms : Z
}.

Record RespondResponse : Type := mkRespondResponse {
  assistant_text : string;
  audio_url : string;
  tts_latency_ms : Z
}.

Record ConfirmResponse : Type := mkConfirmResponse { success : bool }.

(** [axios.create({ baseURL, headers: { 'Content-Type': 'application/json' } })] *)
Definition default_headers : gmap string string :=
  {[ "Content-Type" := "application/json" ]}.

(** The request interceptor:
    [const token = localStorage.getItem('token');
     if (token) config.headers.Authorization = `Bearer ${token}`;
     return config;] *)
Definition request_interceptor (storage : gmap string string) (config : Request)
  : Request :=
  let token := storage !! "token" in
  match token with
  | Some t =>
      if truthy token
      then mkRequest (req_method config) (req_url config)
                     (<["Authorization" := "Bearer " +:+ t]> (req_headers config))
                     (req_params config) (req_body config)
      else config
  | None => config
  end.

(** Every function exported by the client, with its arguments. *)
Inductive Endpoint : Type :=
| CreateSession (deviceInfo : Json)
| UploadAudio (sessionId : string) (audioBlob : Blob)
| ConfirmTranscript (sessionId turnId : string) (confirmed : bool) (correction : Json)
| GenerateResponse (sessionId turnId assistantText : string)
| EndSession (sessionId : string)
| Login (email password : string)
| GetMe
| GetUsers
| UpdateUser (userId : string) (data : list (string * Json))
| GetConversations (filter : list (string * Json))
| GetConversation (id : string)
| GetUnknownTerms (status : Json)
| CreateUnknownTerm (data : list (string * Json))
| ApproveTerm (id : string)
| RejectTerm (id : string)
| GetAnalytics.

(** [api.post(url, data, { headers })] and friends: the defaults of the
    instance, overridden by the headers of the call. *)
Definition config (method url : string) (headers : gmap string string)
    (params : list (string * Json)) (data : Body) : Request :=
  mkRequest method url (headers ∪ default_headers) params data.

(** The configuration each exported function hands to axios. *)
Definition config_of (e : Endpoint) : Request :=
  match e with
  | CreateSession deviceInfo =>
      config "POST" "/api/voice/session" ∅ []
             (JsonBody [("device_info", deviceInfo)])
  | UploadAudio sessionId audioBlob =>
      config "POST" ("/api/voice/upload/" +:+ sessionId)
             {[ "Content-Type" := "multipart/form-data" ]} []
             (FormData [("audio", audioBlob, "recording.wav")])
  | ConfirmTranscript sessionId turnId confirmed correction =>
      config "POST" ("/api/voice/confirm/" +:+ sessionId) ∅ []
             (JsonBody [("turn_id", JStr turnId); ("confirmed", JBool confirmed);
                        ("correction", correction)])
  | GenerateResponse sessionId turnId assistantText =>
      config "POST" ("/api/voice/respond/" +:+ sessionId) ∅ []
             (JsonBody [("turn_id", JStr turnId);
                        ("assistant_text", JStr assistantText)])
  | EndSession sessionId =>
      config "POST" ("/api/voice/end/" +:+ sessionId) ∅ [] NoBody
  | Login email password =>
      config "POST" "/api/auth/login"
             {[ "Content-Type" := "application/x-www-form-urlencoded" ]} []
             (UrlEncoded [("username", email); ("password", password)])
  | GetMe => config "GET" "/api/auth/me" ∅ [] NoBody
  | GetUsers => config "GET" "/api/admin/users" ∅ [] NoBody
  | UpdateUser userId data =>
      config "PATCH" ("/api/admin/users/" +:+ userId) ∅ [] (JsonBody data)
  | GetConversations filter =>
      config "GET" "/api/admin/conversations" ∅ filter NoBody
  | GetConversation id =>
      config "GET" ("/api/admin/conversations/" +:+ id) ∅ [] NoBody
  | GetUnknownTerms status =>
      config "GET" "/api/admin/unknown-terms" ∅ [("status", status)] NoBody
  | CreateUnknownTerm data =>
      config "POST" "/api/admin/unknown-terms" ∅ [] (JsonBody data)
  | ApproveTerm id =>
      config "PATCH" ("/api/admin/unknown-terms/" +:+ id +:+ "/approve") ∅ [] NoBody
  | RejectTerm id =>
      config "PATCH" ("/api/admin/unknown-terms/" +:+ id +:+ "/reject") ∅ [] NoBody
  | GetAnalytics => config "GET" "/api/admin/analytics" ∅ [] NoBody
  end.

(** The request that leaves the client for a call, given the local storage. *)
Definition request_of (storage : gmap string string) (e : Endpoint) : Request :=
  request_interceptor storage (config_of e).

(** One call: the intercepted request is sent, and the answer of the backend
    is either the payload ([response.data]) or a rejected promise. *)
Definition call {P A} (e : Endpoint) (answer : JsError + A) : M (World P) A :=
  on_browser (fun b =>
    let request := request_of (localStorage b) e in
    mkBrowser (console b) (localStorage b) (streams b) (recorders b)
              (constraints_asked b) (sent b ++ [request])
              (match answer with
               | inl _ => rejections b ++ [request]
               | inr _ => rejections b
               end)) ;;
  match answer with
  | inl err => throw err
  | inr data => ret data
  end.

(** ** What the outside world decides *)

Record Env : Type := mkEnv {
  (* navigator.mediaDevices.getUserMedia: a rejection, or a stream with so
     many live tracks *)
  env_getUserMedia : list (string * Json) -> JsError + nat;
  (* does the MediaRecorder constructor accept this MIME type *)
  env_isTypeSupported : string -> bool;
  (* the data the recorder still holds when [stop()] is called *)
  env_final_chunk : Blob;
  (* [stop()] on an inactive recorder: older browsers throw
     InvalidStateError, current ones return without firing any event *)
  env_stop_inactive_throws : bool;
  env_userAgent : string;
  env_createSession : Json -> JsError + SessionResponse;
  env_uploadAudio : string -> Blob -> JsError + TranscribeResponse;
  env_confirmTranscript : string -> string -> bool -> Json -> JsError + ConfirmResponse;
  env_generateResponse : string -> string -> string -> JsError + RespondResponse
}.

(** ** The audio-capture hook ([src/hooks/useAudioRecorder.ts]) *)

Record Hook : Type := mkHook {
  isRecording : bool;
  audioBlob : option Blob;
  hook_error : option string;            (* [error] of the hook *)
  mediaRecorderRef : option nat;         (* index of the recorder in [recorders] *)
  chunksRef : list Blob
}.

Definition initial_hook : Hook := mkHook false None None None [].

Definition setIsRecording (v : bool) : M (World Hook) unit :=
  on_view (fun h => mkHook v (audioBlob h) (hook_error h) (mediaRecorderRef h) (chunksRef h)).
Definition setAudioBlob (v : option Blob) : M (World Hook) unit :=
  on_view (fun h => mkHook (isRecording h) v (hook_error h) (mediaRecorderRef h) (chunksRef h)).
Definition setHookError (v : option string) : M (World Hook) unit :=
  on_view (fun h => mkHook (isRecording h) (audioBlob h) v (mediaRecorderRef h) (chunksRef h)).
Definition set_mediaRecorderRef (v : option nat) : M (World Hook) unit :=
  on_view (fun h => mkHook (isRecording h) (audioBlob h) (hook_error h) v (chunksRef h)).
Definition set_chunksRef (v : list Blob) : M (World Hook) unit :=
  on_view (fun h => mkHook (isRecording h) (audioBlob h) (hook_error h) (mediaRecorderRef h) v).

(** The constraints literal passed to [getUserMedia]. *)
Definition audio_constraints : list (string * Json) :=
  [("audio", JObj [("echoCancellation", JBool true);
                   ("noiseSuppression", JBool true);
                   ("sampleRate", JNum 16000)])].

(** The MIME type asked of the recorder. *)
Definition opus : string := "audio/webm;codecs=opus".

(** [event.data.size > 0 && chunksRef.current.push(event.data)]: the
    [ondataavailable] handler every recorder of the hook carries. *)
Definition ondataavailable (data : Blob) : M (World Hook) unit :=
  h <- get_view ;;
  if (0 <? blob_size data)%nat then set_chunksRef (chunksRef h ++ [data]) else ret tt.

Section Client.

Variable E : Env.

(** *** Browser media primitives *)

Definition getUserMedia {P} (constraints : list (string * Json)) : M (World P) nat :=
  on_browser (fun b =>
    mkBrowser (console b) (localStorage b) (streams b) (recorders b)
              (constraints_asked b ++ [constraints]) (sent b) (rejections b)) ;;
  match env_getUserMedia E constraints with
  | inl err => throw err
  | inr tracks =>
      b <- get_browser ;;
      on_browser (fun b =>
        mkBrowser (console b) (localStorage b) (streams b ++ [replicate tracks live])
                  (recorders b) (constraints_asked b) (sent b) (rejections b)) ;;
      ret (length (streams b))
  end.

Definition set_recorders {P} (rs : list MediaRecorder) : M (World P) unit :=
  on_browser (fun b =>
    mkBrowser (console b) (localStorage b) (streams b) rs (constraints_asked b) (sent b)
              (rejections b)).

(** [new MediaRecorder(stream, { mimeType })] *)
Definition new_MediaRecorder {P} (stream : nat) (mimeType : string) : M (World P) nat :=
  if env_isTypeSupported E mimeType then
    b <- get_browser ;;
    set_recorders (recorders b ++ [mkMediaRecorder stream mimeType rs_inactive None]) ;;
    ret (length (recorders b))
  else throw (DOMException "NotSupportedError").

(** Recorders are referred to by their index in [recorders]; an index comes
    from [new_MediaRecorder] only, so the lookups below find their recorder
    and their last branch is there to keep the functions total.

    [recorder.start(timeslice)] *)
Definition recorder_start {P} (r : nat) (timeslice : Z) : M (World P) unit :=
  b <- get_browser ;;
  match recorders b !! r with
  | Some mr =>
      match mr_state mr with
      | rs_inactive =>
          set_recorders (<[r := mkMediaRecorder (mr_stream mr) (mr_mimeType mr)
                                                rs_recording (Some timeslice)]> (recorders b))
      | _ => throw (DOMException "InvalidStateError")
      end
  | None => throw (Error "no such recorder")
  end.

(** [recorder.stop()] with [ondata] and [onstop] installed: an active recorder
    becomes inactive, hands over what it still holds and then fires [stop]. *)
Definition recorder_stop {P A} (r : nat) (ondata : Blob -> M (World P) unit)
    (onstop : M (World P) A) : M (World P) A :=
  b <- get_browser ;;
  match recorders b !! r with
  | Some mr =>
      match mr_state mr with
      | rs_inactive =>
          if env_stop_inactive_throws E
          then throw (DOMException "InvalidStateError")
          else fun w => (Hang, w)
      | _ =>
          set_recorders (<[r := mkMediaRecorder (mr_stream mr) (mr_mimeType mr)
                                                rs_inactive (mr_timeslice mr)]> (recorders b)) ;;
          ondata (env_final_chunk E) ;;
          onstop
      end
  | None => throw (Error "no such recorder")
  end.

(** [stream.getTracks().forEach(track => track.stop())] *)
Definition stop_all_tracks {P} (stream : nat) : M (World P) unit :=
  on_browser (fun b =>
    mkBrowser (console b) (localStorage b)
              (alter (fmap (fun _ => ended)) stream (streams b))
              (recorders b) (constraints_asked b) (sent b) (rejections b)).

(** *** startRecording *)

Definition startRecording : M (World Hook) unit :=
  try_catch
    (setHookError None ;;
     set_chunksRef [] ;;
     stream <- getUserMedia audio_constraints ;;
     mediaRecorder <- new_MediaRecorder stream opus ;;
     (* mediaRecorder.ondataavailable = ondataavailable *)
     set_mediaRecorderRef (Some mediaRecorder) ;;
     recorder_start mediaRecorder 100 ;;
     setIsRecording true)
    (fun err =>
       setHookError (Some "Не удалось получить доступ к микрофону") ;;
       console_error "Error starting recording:" err).

(** *** stopRecording

    The promise it returns: [Val blob] when it resolves, [Exn] when it
    rejects, [Hang] when neither ever happens. *)
Definition stopRecording : M (World Hook) Blob :=
  h <- get_view ;;
  match mediaRecorderRef h with
  | None => throw (Error "No active recording")
  | Some mediaRecorder =>
      b <- get_browser ;;
      recorder_stop mediaRecorder ondataavailable
        (h <- get_view ;;
         let blob := new_Blob (chunksRef h) "audio/webm" in
         setAudioBlob (Some blob) ;;
         setIsRecording false ;;
         match recorders b !! mediaRecorder with
         | Some mr => stop_all_tracks (mr_stream mr)
         | None => ret tt
         end ;;
         ret blob)
  end.

End Client.

(** ** The voice-flow page ([src/app/page.tsx])

    A handler reads the state of the render it was created in.  Each handler
    of the page lists in its [useCallback] dependencies every value it reads,
    so it is re-created when one of them changes and reads, when called, the
    state the page then has; the handlers below take that state at their
    first step and keep it, as the closure does. *)

Inductive AppState : Type :=
| idle | recording | processing | confirming | responding | playing.

Record Home : Type := mkHome {
  state : AppState;
  sessionId : option string;
  transcription : option TranscribeResponse;
  response : option RespondResponse;
  error : option string;
  recorder : Hook;                 (* the state of [useAudioRecorder()] *)
  trail : list AppState            (* ghost: every value given to [setState], in order *)
}.

Definition initial_home : Home := mkHome idle None None None None initial_hook [].

Definition setState (v : AppState) : M (World Home) unit :=
  on_view (fun p => mkHome v (sessionId p) (transcription p) (response p) (error p)
                           (recorder p) (trail p ++ [v])).
Definition setSessionId (v : option string) : M (World Home) unit :=
  on_view (fun p => mkHome (state p) v (transcription p) (response p) (error p)
                           (recorder p) (trail p)).
Definition setTranscription (v : option TranscribeResponse) : M (World Home) unit :=
  on_view (fun p => mkHome (state p) (sessionId p) v (response p) (error p)
                           (recorder p) (trail p)).
Definition setResponse (v : option RespondResponse) : M (World Home) unit :=
  on_view (fun p => mkHome (state p) (sessionId p) (transcription p) v (error p)
                           (recorder p) (trail p)).
Definition setError (v : option string) : M (World Home) unit :=
  on_view (fun p => mkHome (state p) (sessionId p) (transcription p) (response p) v
                           (recorder p) (trail p)).

(** Runs an operation of the hook inside the page that uses it. *)
Definition with_hook {A} (m : M (World Hook) A) : M (World Home) A :=
  zoom recorder
       (fun h p => mkHome (state p) (sessionId p) (transcription p) (response p)
                          (error p) h (trail p))
       m.

Section Page.

Variable E : Env.

Definition voiceApi_createSession (deviceInfo : Json) : M (World Home) SessionResponse :=
  call (CreateSession deviceInfo) (env_createSession E deviceInfo).

Definition voiceApi_uploadAudio (sid : string) (blob : Blob)
  : M (World Home) TranscribeResponse :=
  call (UploadAudio sid blob) (env_uploadAudio E sid blob).

Definition voiceApi_confirmTranscript (sid turnId : string) (confirmed : bool)
    (correction : Json) : M (World Home) ConfirmResponse :=
  call (ConfirmTranscript sid turnId confirmed correction)
       (env_confirmTranscript E sid turnId confirmed correction).

Definition voiceApi_generateResponse (sid turnId assistantText : string)
  : M (World Home) RespondResponse :=
  call (GenerateResponse sid turnId assistantText)
       (env_generateResponse E sid turnId assistantText).

(** [initSession], closed over the [sessionId] of the render it was made in. *)
Definition initSession (sessionId : option string) : M (World Home) (option string) :=
  if negb (truthy sessionId) then
    try_catch
      (r <- voiceApi_createSession (JObj [("userAgent", JStr (env_userAgent E))]) ;;
       setSessionId (Some (session_id r)) ;;
       ret (Some (session_id r)))
      (fun _ =>
         setError (Some "Не удалось создать сессию") ;;
         ret None)
  else ret sessionId.

Definition handlePressStart : M (World Home) unit :=
  setError None ;;
  with_hook (startRecording E) ;;
  setState recording.

Definition handlePressEnd : M (World Home) unit :=
  p <- get_view ;;
  setState processing ;;
  try_catch
    (audioBlob <- with_hook (stopRecording E) ;;
     currentSessionId <- initSession (sessionId p) ;;
     match currentSessionId with
     | Some sid =>
         if negb (truthy currentSessionId) then setState idle
         else
           result <- voiceApi_uploadAudio sid audioBlob ;;
           setTranscription (Some result) ;;
           setState confirming
     | None => setState idle
     end)
    (fun _ =>
       setError (Some "Ошибка при обработке аудио") ;;
       setState idle).

(** The text sent for synthesis after a confirmation. *)
Definition confirm_text (t : TranscribeResponse) : string :=
  "Я понял вас: " +:+ dquote +:+ normalized_transcript t +:+ dquote
  +:+ ". Чем могу помочь?".

(** The text sent for synthesis after a correction. *)
Definition correct_text (correctedText : string) : string :=
  "Спасибо за исправление. Вы сказали: " +:+ dquote +:+ correctedText +:+ dquote
  +:+ ". Чем могу помочь?".

Definition handleConfirm : M (World Home) unit :=
  p <- get_view ;;
  match sessionId p, transcription p with
  | Some sid, Some t =>
      if negb (truthy (sessionId p)) then ret tt
      else
        setState responding ;;
        try_catch
          (voiceApi_confirmTranscript sid (turn_id t) true JUndefined ;;
           result <- voiceApi_generateResponse sid (turn_id t) (confirm_text t) ;;
           setResponse (Some result) ;;
           setState playing)
          (fun _ =>
             setError (Some "Ошибка при генерации ответа") ;;
             setState idle)
  | _, _ => ret tt
  end.

Definition handleCorrect (correctedText : string) : M (World Home) unit :=
  p <- get_view ;;
  match sessionId p, transcription p with
  | Some sid, Some t =>
      if negb (truthy (sessionId p)) then ret tt
      else
        setState responding ;;
        try_catch
          (voiceApi_confirmTranscript sid (turn_id t) false (JStr correctedText) ;;
           result <- voiceApi_generateResponse sid (turn_id t) (correct_text correctedText) ;;
           setResponse (Some result) ;;
           setState playing)
          (fun _ =>
             setError (Some "Ошибка при сохранении исправления") ;;
             setState idle)
  | _, _ => ret tt
  end.

Definition handleRetry : M (World Home) unit :=
  setTranscription None ;;
  setState idle.

Definition handlePlaybackComplete : M (World Home) unit :=
  setState idle ;;
  setTranscription None ;;
  setResponse None.

(** *** What the rendered components let through

    [VoiceButton] is rendered in [idle], [recording] and [processing]; its
    mouse-down calls [onPressStart] unless [isProcessing], its mouse-up calls
    [onPressEnd] when the hook says [isRecording].  [ConfirmationScreen] is
    rendered in [confirming] when a transcription is held, [ResponsePlayer] in
    [playing] when a response is held. *)
Inductive UiEvent : Type :=
| MouseDown
| MouseUp
| ClickConfirm
| SubmitCorrection (correctedText : string)   (* the text handed to [onCorrect] *)
| ClickRetry
| AudioEnded.

Definition voice_button_shown (p : Home) : bool :=
  match state p with
  | idle | recording | processing => true
  | _ => false
  end.

Definition confirmation_shown (p : Home) : bool :=
  match state p, transcription p with
  | confirming, Some _ => true
  | _, _ => false
  end.

Definition player_shown (p : Home) : bool :=
  match state p, response p with
  | playing, Some _ => true
  | _, _ => false
  end.

(** [{error && <div ...>{error}</div>}]: the message on screen, if any. *)
Definition error_banner (p : Home) : option string :=
  if truthy (error p) then error p else None.

Definition is_processing (p : Home) : bool :=
  match state p with processing => true | _ => false end.

Definition dispatch (ev : UiEvent) : M (World Home) unit :=
  p <- get_view ;;
  match ev with
  | MouseDown =>
      if voice_button_shown p && negb (is_processing p) then handlePressStart else ret tt
  | MouseUp =>
      if voice_button_shown p && isRecording (recorder p) then handlePressEnd else ret tt
  | ClickConfirm => if confirmation_shown p then handleConfirm else ret tt
  | SubmitCorrection text => if confirmation_shown p then handleCorrect text else ret tt
  | ClickRetry => if confirmation_shown p then handleRetry else ret tt
  | AudioEnded => if player_shown p then handlePlaybackComplete else ret tt
  end.

End Page.

(** ** The back-office pages ([src/app/admin/**]) *)

Inductive Role : Type := senior | admin.
Inductive Language : Type := ru | kk.
Inductive Provider : Type := openai | google.
Inductive TermStatus : Type := pending | approved | rejected.

Record User : Type := mkUser {
  user_id : string;
  user_name : string;
  user_role : Role;
  user_language : Language;
  user_stt_provider : Provider;
  user_tts_provider : Provider;
  is_test_user : bool;
  user_created_at : string;
  last_active_at : option string
}.

Record Conversation : Type := mkConversation {
  conv_id : string;
  conv_user_id : string;
  conv_user_name : option string;
  started_at : string;
  ended_at : option string;
  stt_provider_used : string;
  tts_provider_used : string;
  turn_count : Z
}.

Record Turn : Type := mkTurn {
  turn_ident : string;
  turn_number : Z;
  turn_timestamp : string;
  audio_input_url : option string;
  turn_raw_transcript : option string;
  turn_normalized_transcript : option string;
  transcript_confidence : option number;
  user_confirmed : option bool;
  user_correction : option string;
  turn_assistant_text : option string;
  audio_output_url : option string;
  turn_stt_latency_ms : option Z;
  turn_tts_latency_ms : option Z
}.

Record ConversationDetails : Type := mkConversationDetails {
  details : Conversation;
  turns : list Turn
}.

Record UnknownTerm : Type := mkUnknownTerm {
  term_id : string;
  term_language : Language;
  heard_variant : string;
  correct_form : string;
  context_examples : list string;
  provider_where_seen : option string;
  occurrence_count : Z;
  term_status : TermStatus;
  term_created_at : string;
  term_updated_at : string
}.

Record ProviderMetrics : Type := mkProviderMetrics {
  provider : string;
  total_requests : Z;
  avg_confidence : number;
  avg_stt_latency_ms : number;
  avg_tts_latency_ms : number;
  correction_rate : number
}.

Record AnalyticsData : Type := mkAnalyticsData {
  metrics : list ProviderMetrics;
  top_unknown_terms : list (string * Z)
}.

(** The answers of the admin endpoints. *)
Record AdminEnv : Type := mkAdminEnv {
  adm_getUsers : JsError + list User;
  adm_updateUser : string -> list (string * Json) -> JsError + User;
  adm_getConversations : list (string * Json) -> JsError + list Conversation;
  adm_getConversation : string -> JsError + ConversationDetails;
  adm_getUnknownTerms : Json -> JsError + list UnknownTerm;
  adm_createUnknownTerm : list (string * Json) -> JsError + UnknownTerm;
  adm_approveTerm : string -> JsError + UnknownTerm;
  adm_rejectTerm : string -> JsError + UnknownTerm;
  adm_getAnalytics : JsError + AnalyticsData;
  (* when two requests in flight both fail: does [getUsers] fail first *)
  adm_users_fail_first : bool
}.

(** What a page puts on the screen, as far as failures are concerned. *)
Inductive Screen : Type :=
| LoadingText                      (* "Загрузка..." *)
| RedText (text : string)          (* a line in [text-red-600] *)
| Table (rows : nat)               (* a list page with that many rows *)
| Content.                         (* any other page body *)

(** *** Users *)

Record UsersPage : Type := mkUsersPage {
  users : list User;
  users_loading : bool;
  editingId : option string;
  editForm : string * string          (* stt_provider, tts_provider *)
}.

Definition initial_users_page : UsersPage := mkUsersPage [] true None ("", "").

(** *** Terms *)

Record NewTerm : Type := mkNewTerm {
  nt_language : string; nt_heard_variant : string; nt_correct_form : string
}.

Record TermsPage : Type := mkTermsPage {
  terms : list UnknownTerm;
  terms_loading : bool;
  statusFilter : string;
  showAddForm : bool;
  newTerm : NewTerm
}.

Definition blank_term : NewTerm := mkNewTerm "ru" "" "".
Definition initial_terms_page : TermsPage := mkTermsPage [] true "" false blank_term.

(** *** Analytics *)

Record AnalyticsPage : Type := mkAnalyticsPage {
  data : option AnalyticsData;
  analytics_loading : bool
}.

Definition initial_analytics_page : AnalyticsPage := mkAnalyticsPage None true.

(** *** Conversations *)

Record ConversationFilter : Type := mkConversationFilter {
  f_user_id : option string;
  f_provider : option string;
  f_date_from : option string;
  f_date_to : option string;
  f_low_confidence : option bool
}.

Record ConversationsPage : Type := mkConversationsPage {
  conversations : list Conversation;
  conv_users : list User;
  conversations_loading : bool;
  conv_filter : ConversationFilter
}.

Definition empty_filter : ConversationFilter :=
  mkConversationFilter None None None None None.
Definition initial_conversations_page : ConversationsPage :=
  mkConversationsPage [] [] true empty_filter.

(** *** Conversation details *)

Record ConversationDetailPage : Type := mkConversationDetailPage {
  route_id : string;                          (* params.id *)
  conversation : option ConversationDetails;
  detail_loading : bool
}.

Definition initial_detail_page (id : string) : ConversationDetailPage :=
  mkConversationDetailPage id None true.

Section Admin.

Variable Adm : AdminEnv.

(** Optional fields of an object literal: absent means [undefined]. *)
Definition opt_str (o : option string) : Json :=
  match o with Some s => JStr s | None => JUndefined end.
Definition opt_bool (o : option bool) : Json :=
  match o with Some b => JBool b | None => JUndefined end.

(** *** Users page *)

Definition setUsers (v : list User) : M (World UsersPage) unit :=
  on_view (fun p => mkUsersPage v (users_loading p) (editingId p) (editForm p)).
Definition setUsersLoading (v : bool) : M (World UsersPage) unit :=
  on_view (fun p => mkUsersPage (users p) v (editingId p) (editForm p)).
Definition setEditingId (v : option string) : M (World UsersPage) unit :=
  on_view (fun p => mkUsersPage (users p) (users_loading p) v (editForm p)).

Definition loadUsers : M (World UsersPage) unit :=
  try_finally
    (try_catch
       (data <- call GetUsers (adm_getUsers Adm) ;;
        setUsers data)
       (fun err => console_error "Failed to load users:" err))
    (setUsersLoading false).

Definition editForm_json (f : string * string) : list (string * Json) :=
  [("stt_provider", JStr (fst f)); ("tts_provider", JStr (snd f))].

Definition saveEdit (userId : string) : M (World UsersPage) unit :=
  p <- get_view ;;
  try_catch
    (call (UpdateUser userId (editForm_json (editForm p)))
          (adm_updateUser Adm userId (editForm_json (editForm p))) ;;
     setEditingId None ;;
     fire_and_forget loadUsers)
    (fun err => console_error "Failed to update user:" err).

Definition users_screen (p : UsersPage) : Screen :=
  if users_loading p then LoadingText else Table (length (users p)).

(** *** Terms page *)

Definition setTerms (v : list UnknownTerm) : M (World TermsPage) unit :=
  on_view (fun p => mkTermsPage v (terms_loading p) (statusFilter p) (showAddForm p) (newTerm p)).
Definition setTermsLoading (v : bool) : M (World TermsPage) unit :=
  on_view (fun p => mkTermsPage (terms p) v (statusFilter p) (showAddForm p) (newTerm p)).
Definition setShowAddForm (v : bool) : M (World TermsPage) unit :=
  on_view (fun p => mkTermsPage (terms p) (terms_loading p) (statusFilter p) v (newTerm p)).
Definition setNewTerm (v : NewTerm) : M (World TermsPage) unit :=
  on_view (fun p => mkTermsPage (terms p) (terms_loading p) (statusFilter p) (showAddForm p) v).

(** [statusFilter || undefined] *)
Definition status_param (statusFilter : string) : Json :=
  if truthy (Some statusFilter) then JStr statusFilter else JUndefined.

Definition loadTerms : M (World TermsPage) unit :=
  p <- get_view ;;
  setTermsLoading true ;;
  try_finally
    (try_catch
       (data <- call (GetUnknownTerms (status_param (statusFilter p)))
                     (adm_getUnknownTerms Adm (status_param (statusFilter p))) ;;
        setTerms data)
       (fun err => console_error "Failed to load terms:" err))
    (setTermsLoading false).

Definition handleApprove (id : string) : M (World TermsPage) unit :=
  try_catch
    (call (ApproveTerm id) (adm_approveTerm Adm id) ;;
     fire_and_forget loadTerms)
    (fun err => console_error "Failed to approve term:" err).

Definition handleReject (id : string) : M (World TermsPage) unit :=
  try_catch
    (call (RejectTerm id) (adm_rejectTerm Adm id) ;;
     fire_and_forget loadTerms)
    (fun err => console_error "Failed to reject term:" err).

Definition newTerm_json (t : NewTerm) : list (string * Json) :=
  [("language", JStr (nt_language t)); ("heard_variant", JStr (nt_heard_variant t));
   ("correct_form", JStr (nt_correct_form t))].

Definition handleAddTerm : M (World TermsPage) unit :=
  p <- get_view ;;
  try_catch
    (call (CreateUnknownTerm (newTerm_json (newTerm p)))
          (adm_createUnknownTerm Adm (newTerm_json (newTerm p))) ;;
     setNewTerm blank_term ;;
     setShowAddForm false ;;
     fire_and_forget loadTerms)
    (fun err => console_error "Failed to add term:" err).

Definition terms_screen (p : TermsPage) : Screen :=
  if terms_loading p then LoadingText else Table (length (terms p)).

(** *** Analytics page *)

Definition setData (v : option AnalyticsData) : M (World AnalyticsPage) unit :=
  on_view (fun p => mkAnalyticsPage v (analytics_loading p)).
Definition setAnalyticsLoading (v : bool) : M (World AnalyticsPage) unit :=
  on_view (fun p => mkAnalyticsPage (data p) v).

Definition loadAnalytics : M (World AnalyticsPage) unit :=
  try_finally
    (try_catch
       (result <- call GetAnalytics (adm_getAnalytics Adm) ;;
        setData (Some result))
       (fun err => console_error "Failed to load analytics:" err))
    (setAnalyticsLoading false).

Definition analytics_screen (p : AnalyticsPage) : Screen :=
  if analytics_loading p then LoadingText
  else match data p with
       | None => RedText "Ошибка загрузки данных"
       | Some _ => Content
       end.

(** *** Conversations page *)

Definition setConversations (v : list Conversation) : M (World ConversationsPage) unit :=
  on_view (fun p => mkConversationsPage v (conv_users p) (conversations_loading p) (conv_filter p)).
Definition setConvUsers (v : list User) : M (World ConversationsPage) unit :=
  on_view (fun p => mkConversationsPage (conversations p) v (conversations_loading p) (conv_filter p)).
Definition setConversationsLoading (v : bool) : M (World ConversationsPage) unit :=
  on_view (fun p => mkConversationsPage (conversations p) (conv_users p) v (conv_filter p)).

Definition filter_params (f : ConversationFilter) : list (string * Json) :=
  [("user_id", opt_str (f_user_id f)); ("provider", opt_str (f_provider f));
   ("date_from", opt_str (f_date_from f)); ("date_to", opt_str (f_date_to f));
   ("low_confidence", opt_bool (f_low_confidence f))].

(** [Promise.all([getConversations(filter), getUsers()])]: both requests
    leave; the promise rejects with whichever rejection comes first. *)
Definition promise_all2 {X Y} (a : JsError + X) (b : JsError + Y) : JsError + (X * Y) :=
  match a, b with
  | inr x, inr y => inr (x, y)
  | inl err, inr _ => inl err
  | inr _, inl err => inl err
  | inl err_a, inl err_b => inl (if adm_users_fail_first Adm then err_b else err_a)
  end.

Definition loadData : M (World ConversationsPage) unit :=
  p <- get_view ;;
  try_finally
    (try_catch
       (let params := filter_params (conv_filter p) in
        fire_and_forget (call (A:=list Conversation) (GetConversations params)
                              (adm_getConversations Adm params)) ;;
        fire_and_forget (call (A:=list User) GetUsers (adm_getUsers Adm)) ;;
        match promise_all2 (adm_getConversations Adm params) (adm_getUsers Adm) with
        | inr (convs, usrs) => setConversations convs ;; setConvUsers usrs
        | inl err => throw err
        end)
       (fun err => console_error "Failed to load data:" err))
    (setConversationsLoading false).

Definition applyFilter : M (World ConversationsPage) unit :=
  p <- get_view ;;
  setConversationsLoading true ;;
  try_finally
    (try_catch
       (data <- call (GetConversations (filter_params (conv_filter p)))
                     (adm_getConversations Adm (filter_params (conv_filter p))) ;;
        setConversations data)
       (fun err => console_error "Failed to filter:" err))
    (setConversationsLoading false).

Definition conversations_screen (p : ConversationsPage) : Screen :=
  if conversations_loading p && (length (conversations p) =? 0)%nat then LoadingText
  else Table (length (conversations p)).

(** *** Conversation detail page *)

Definition setConversation (v : option ConversationDetails)
  : M (World ConversationDetailPage) unit :=
  on_view (fun p => mkConversationDetailPage (route_id p) v (detail_loading p)).
Definition setDetailLoading (v : bool) : M (World ConversationDetailPage) unit :=
  on_view (fun p => mkConversationDetailPage (route_id p) (conversation p) v).

Definition loadConversation : M (World ConversationDetailPage) unit :=
  p <- get_view ;;
  try_finally
    (try_catch
       (data <- call (GetConversation (route_id p)) (adm_getConversation Adm (route_id p)) ;;
        setConversation (Some data))
       (fun err => console_error "Failed to load conversation:" err))
    (setDetailLoading false).

Definition detail_screen (p : ConversationDetailPage) : Screen :=
  if detail_loading p then LoadingText
  else match conversation p with
       | None => RedText "Диалог не найден"
       | Some _ => Content
       end.

End Admin.

(** *** The back office as a whole *)

Record Admin : Type := mkAdmin {
  usersPage : UsersPage;
  termsPage : TermsPage;
  analyticsPage : AnalyticsPage;
  conversationsPage : ConversationsPage;
  detailPage : ConversationDetailPage
}.

(** The data-loading and mutation operations of the admin pages. *)
Inductive AdminOp : Type :=
| OpLoadUsers
| OpSaveEdit (userId : string)
| OpLoadTerms
| OpApprove (id : string)
| OpReject (id : string)
| OpAddTerm
| OpLoadAnalytics
| OpLoadData
| OpApplyFilter
| OpLoadConversation.

Section AdminOps.

Variable Adm : AdminEnv.

Definition in_users {R} : M (World UsersPage) R -> M (World Admin) R :=
  zoom usersPage (fun q a => mkAdmin q (termsPage a) (analyticsPage a)
                                     (conversationsPage a) (detailPage a)).
Definition in_terms {R} : M (World TermsPage) R -> M (World Admin) R :=
  zoom termsPage (fun q a => mkAdmin (usersPage a) q (analyticsPage a)
                                     (conversationsPage a) (detailPage a)).
Definition in_analytics {R} : M (World AnalyticsPage) R -> M (World Admin) R :=
  zoom analyticsPage (fun q a => mkAdmin (usersPage a) (termsPage a) q
                                         (conversationsPage a) (detailPage a)).
Definition in_conversations {R} : M (World ConversationsPage) R -> M (World Admin) R :=
  zoom conversationsPage (fun q a => mkAdmin (usersPage a) (termsPage a) (analyticsPage a)
                                             q (detailPage a)).
Definition in_detail {R} : M (World ConversationDetailPage) R -> M (World Admin) R :=
  zoom detailPage (fun q a => mkAdmin (usersPage a) (termsPage a) (analyticsPage a)
                                      (conversationsPage a) q).

Definition run_op (op : AdminOp) : M (World Admin) unit :=
  match op with
  | OpLoadUsers => in_users (loadUsers Adm)
  | OpSaveEdit userId => in_users (saveEdit Adm userId)
  | OpLoadTerms => in_terms (loadTerms Adm)
  | OpApprove id => in_terms (handleApprove Adm id)
  | OpReject id => in_terms (handleReject Adm id)
  | OpAddTerm => in_terms (handleAddTerm Adm)
  | OpLoadAnalytics => in_analytics (loadAnalytics Adm)
  | OpLoadData => in_conversations (loadData Adm)
  | OpApplyFilter => in_conversations (applyFilter Adm)
  | OpLoadConversation => in_detail (loadConversation Adm)
  end.

(** The rejection the operation meets on its own request, if it meets one. *)
Definition failure_of {X} (answer : JsError + X) : option JsError :=
  match answer with inl err => Some err | inr _ => None end.

Definition op_failure (op : AdminOp) (a : Admin) : option JsError :=
  match op with
  | OpLoadUsers => failure_of (adm_getUsers Adm)
  | OpSaveEdit userId =>
      failure_of (adm_updateUser Adm userId (editForm_json (editForm (usersPage a))))
  | OpLoadTerms =>
      failure_of (adm_getUnknownTerms Adm (status_param (statusFilter (termsPage a))))
  | OpApprove id => failure_of (adm_approveTerm Adm id)
  | OpReject id => failure_of (adm_rejectTerm Adm id)
  | OpAddTerm =>
      failure_of (adm_createUnknownTerm Adm (newTerm_json (newTerm (termsPage a))))
  | OpLoadAnalytics => failure_of (adm_getAnalytics Adm)
  | OpLoadData =>
      failure_of (promise_all2 Adm
                    (adm_getConversations Adm
                       (filter_params (conv_filter (conversationsPage a))))
                    (adm_getUsers Adm))
  | OpApplyFilter =>
      failure_of (adm_getConversations Adm
                    (filter_params (conv_filter (conversationsPage a))))
  | OpLoadConversation => failure_of (adm_getConversation Adm (route_id (detailPage a)))
  end.

End AdminOps.

(** The label each operation gives to [console.error]. *)
Definition op_label (op : AdminOp) : string :=
  match op with
  | OpLoadUsers => "Failed to load users:"
  | OpSaveEdit _ => "Failed to update user:"
  | OpLoadTerms => "Failed to load terms:"
  | OpApprove _ => "Failed to approve term:"
  | OpReject _ => "Failed to reject term:"
  | OpAddTerm => "Failed to add term:"
  | OpLoadAnalytics => "Failed to load analytics:"
  | OpLoadData => "Failed to load data:"
  | OpApplyFilter => "Failed to filter:"
  | OpLoadConversation => "Failed to load conversation:"
  end.

(** The screen of the page an operation belongs to. *)
Definition op_screen (op : AdminOp) (a : Admin) : Screen :=
  match op with
  | OpLoadUsers | OpSaveEdit _ => users_screen (usersPage a)
  | OpLoadTerms | OpApprove _ | OpReject _ | OpAddTerm => terms_screen (termsPage a)
  | OpLoadAnalytics => analytics_screen (analyticsPage a)
  | OpLoadData | OpApplyFilter => conversations_screen (conversationsPage a)
  | OpLoadConversation => detail_screen (detailPage a)
  end.

(** Everything the pages hold that came from the backend. *)
Definition held_data (a : Admin) :=
  (users (usersPage a), terms (termsPage a), data (analyticsPage a),
   conversations (conversationsPage a), conv_users (conversationsPage a),
   conversation (detailPage a)).

Definition shows_error (s : Screen) : bool :=
  match s with RedText _ => true | _ => false end.

Definition initial_admin (id : string) : Admin :=
  mkAdmin initial_users_page initial_terms_page initial_analytics_page
          initial_conversations_page (initial_detail_page id).

(** ** The voice flow as the specification words it

    The second, independent description of the flow: the states each user
    action is said to lead through when nothing fails.  It is compared with
    [dispatch] below. *)
Definition spec_transition (s : AppState) (ev : UiEvent) : option (list AppState) :=
  match s, ev with
  | idle, MouseDown => Some [recording]                      (* press-start *)
  | recording, MouseUp => Some [processing; confirming]      (* release, then transcript *)
  | confirming, ClickConfirm => Some [responding; playing]   (* confirmation, then reply *)
  | confirming, SubmitCorrection _ => Some [responding; playing]
  | confirming, ClickRetry => Some [idle]                    (* reset *)
  | playing, AudioEnded => Some [idle]                       (* playback completion *)
  | _, _ => None
  end.

(** The payload a stop will resolve with: the chunks buffered so far and what
    the recorder still holds, if that is not empty. *)
Definition captured (E : Env) (h : Hook) : Blob :=
  new_Blob (chunksRef h ++
            (if (0 <? blob_size (env_final_chunk E))%nat then [env_final_chunk E] else []))
           "audio/webm".

Definition device_info (E : Env) : Json := JObj [("userAgent", JStr (env_userAgent E))].

(** The session a release will upload to, when there is one to be had. *)
Definition session_for (E : Env) (p : Home) : option string :=
  if truthy (sessionId p) then sessionId p
  else match env_createSession E (device_info E) with
       | inr r => if truthy (Some (session_id r)) then Some (session_id r) else None
       | inl _ => None
       end.

(** Every answer the environment gives during the action is a success. *)
Definition succeeds (E : Env) (w : World Home) (ev : UiEvent) : Prop :=
  let p := view w in
  match ev with
  | MouseUp =>
      isRecording (recorder p) = true ∧
      ∃ sid t, session_for E p = Some sid ∧
               env_uploadAudio E sid (captured E (recorder p)) = inr t
  | ClickConfirm =>
      ∃ sid t c r, sessionId p = Some sid ∧ transcription p = Some t ∧
        env_confirmTranscript E sid (turn_id t) true JUndefined = inr c ∧
        env_generateResponse E sid (turn_id t) (confirm_text t) = inr r
  | SubmitCorrection text =>
      ∃ sid t c r, sessionId p = Some sid ∧ transcription p = Some t ∧
        env_confirmTranscript E sid (turn_id t) false (JStr text) = inr c ∧
        env_generateResponse E sid (turn_id t) (correct_text text) = inr r
  | MouseDown | ClickRetry | AudioEnded => True
  end.

(** The calls the specification attaches to the transitions. *)
Definition success_calls (E : Env) (p : Home) (ev : UiEvent) : list Endpoint :=
  match ev with
  | MouseUp =>
      match session_for E p with
      | Some sid =>
          (if truthy (sessionId p) then [] else [CreateSession (device_info E)])
          ++ [UploadAudio sid (captured E (recorder p))]
      | None => []
      end
  | ClickConfirm =>
      match sessionId p, transcription p with
      | Some sid, Some t =>
          [ConfirmTranscript sid (turn_id t) true JUndefined;
           GenerateResponse sid (turn_id t) (confirm_text t)]
      | _, _ => []
      end
  | SubmitCorrection text =>
      match sessionId p, transcription p with
      | Some sid, Some t =>
          [ConfirmTranscript sid (turn_id t) false (JStr text);
           GenerateResponse sid (turn_id t) (correct_text text)]
      | _, _ => []
      end
  | MouseDown | ClickRetry | AudioEnded => []
  end.

(** The world the hook sees from inside the page. *)
Definition hook_world (w : World Home) : World Hook :=
  mkWorld (recorder (view w)) (browser w).

(** The hook says it records only while the recorder it refers to does. *)
Definition recording_ok (wh : World Hook) : Prop :=
  isRecording (view wh) = true →
  ∃ r mr, mediaRecorderRef (view wh) = Some r ∧
          recorders (browser wh) !! r = Some mr ∧ mr_state mr = rs_recording.

(** What holds of the page between any two user actions. *)
Record coherent (w : World Home) : Prop := mkCoherent {
  coh_recording : recording_ok (hook_world w);
  (* a transcript is shown for confirmation only inside a session *)
  coh_confirming :
    state (view w) = confirming →
    truthy (sessionId (view w)) = true ∧ is_Some (transcription (view w));
  (* playback has something to play *)
  coh_playing :
    state (view w) = playing → is_Some (response (view w))
}.

(** The handlers in which a turn moves on by talking to the backend. *)
Inductive Transitioning : Type :=
| StepRelease
| StepConfirm
| StepCorrect (correctedText : string).

Definition step_handler (E : Env) (s : Transitioning) : M (World Home) unit :=
  match s with
  | StepRelease => handlePressEnd E
  | StepConfirm => handleConfirm E
  | StepCorrect text => handleCorrect E text
  end.

(** The recorder the hook refers to is capturing, so that a stop goes
    through and resolves with what was captured. *)
Definition capturing (w : World Home) : Prop :=
  ∃ r mr, mediaRecorderRef (recorder (view w)) = Some r
          ∧ recorders (browser w) !! r = Some mr
          ∧ mr_state mr ≠ rs_inactive.

(** The backend rejects a call the step makes: on release the creation of the
    session (when the page holds none) or the upload of the captured audio;
    on a confirmation or a correction the confirmation itself or, once that
    is accepted, the request for a reply. *)
Definition rejects (E : Env) (w : World Home) (s : Transitioning) : Prop :=
  let p := view w in
  match s with
  | StepRelease =>
      capturing w ∧
      ((truthy (sessionId p) = false ∧ ∃ err, env_createSession E (device_info E) = inl err)
       ∨ (∃ sid err, session_for E p = Some sid
                     ∧ env_uploadAudio E sid (captured E (recorder p)) = inl err))
  | StepConfirm =>
      ∃ sid t, sessionId p = Some sid ∧ sid ≠ "" ∧ transcription p = Some t ∧
        ((∃ err, env_confirmTranscript E sid (turn_id t) true JUndefined = inl err)
         ∨ (∃ c err, env_confirmTranscript E sid (turn_id t) true JUndefined = inr c
                     ∧ env_generateResponse E sid (turn_id t) (confirm_text t) = inl err))
  | StepCorrect text =>
      ∃ sid t, sessionId p = Some sid ∧ sid ≠ "" ∧ transcription p = Some t ∧
        ((∃ err, env_confirmTranscript E sid (turn_id t) false (JStr text) = inl err)
         ∨ (∃ c err, env_confirmTranscript E sid (turn_id t) false (JStr text) = inr c
                     ∧ env_generateResponse E sid (turn_id t) (correct_text text) = inl err))
  end.

(** The calls a step makes, given what the backend answers: each call is
    made once the one before it has been accepted. *)
Definition step_calls (E : Env) (w : World Home) (s : Transitioning) : list Endpoint :=
  let p := view w in
  match s with
  | StepRelease =>
      (if truthy (sessionId p) then [] else [CreateSession (device_info E)])
      ++ match session_for E p with
         | Some sid => [UploadAudio sid (captured E (recorder p))]
         | None => []
         end
  | StepConfirm =>
      match sessionId p, transcription p with
      | Some sid, Some t =>
          ConfirmTranscript sid (turn_id t) true JUndefined ::
          match env_confirmTranscript E sid (turn_id t) true JUndefined with
          | inr _ => [GenerateResponse sid (turn_id t) (confirm_text t)]
          | inl _ => []
          end
      | _, _ => []
      end
  | StepCorrect text =>
      match sessionId p, transcription p with
      | Some sid, Some t =>
          ConfirmTranscript sid (turn_id t) false (JStr text) ::
          match env_confirmTranscript E sid (turn_id t) false (JStr text) with
          | inr _ => [GenerateResponse sid (turn_id t) (correct_text text)]
          | inl _ => []
          end
      | _, _ => []
      end
  end.

(** The value of one key of the [audio] constraints. *)
Definition audio_param (key : string) (constraints : list (string * Json)) : Json :=
  match js_get "audio" constraints with
  | JObj fields => js_get key fields
  | _ => JUndefined
  end.

(** The [Authorization] header of a request. *)
Definition authorization (r : Request) : option string :=
  req_headers r !! "Authorization".

(** A chunk the [ondataavailable] handler keeps. *)
Definition non_empty (b : Blob) : Prop := (0 < blob_size b)%nat.

#[global] Instance non_empty_dec b : Decision (non_empty b).
Proof. unfold non_empty. apply _. Defined.

(** The recorder delivers [chunks], one [dataavailable] event each. *)
Definition deliver (chunks : list Blob) (w : World Hook) : World Hook :=
  foldl (fun w c => exec (ondataavailable c) w) w chunks.

(** ** Sample environments and worlds *)

Definition sample_transcript : TranscribeResponse :=
  mkTranscribeResponse "turn-1" "privet" "Привет" (QArith_base.Qmake 9 10) 120.

Definition sample_reply : RespondResponse :=
  mkRespondResponse "Здравствуйте" "/audio/turn-1.mp3" 80.

Definition network_error : JsError := AxiosError "Network Error".

(** Which of the voice endpoints answer. *)
Record Up : Type := mkUp {
  up_session : bool; up_upload : bool; up_confirm : bool; up_respond : bool
}.

Definition all_up : Up := mkUp true true true true.

(** An environment in which the microphone answers [mic] and the backend
    answers the calls [up] lets through. *)
Definition sample_env (mic : JsError + nat) (legacy_stop : bool) (up : Up) : Env :=
  mkEnv (fun _ => mic) (fun _ => true) (mkBlob [3; 4]%Z opus)
        legacy_stop "Mozilla/5.0"
        (fun _ => if up_session up then inr (mkSessionResponse "session-1")
                  else inl network_error)
        (fun _ _ => if up_upload up then inr sample_transcript else inl network_error)
        (fun _ _ _ _ => if up_confirm up then inr (mkConfirmResponse true)
                        else inl network_error)
        (fun _ _ _ => if up_respond up then inr sample_reply else inl network_error).

Definition happy_env : Env := sample_env (inr 1%nat) false all_up.
Definition deaf_env : Env := sample_env (inl (DOMException "NotAllowedError")) false all_up.
Definition legacy_env : Env := sample_env (inr 1%nat) true all_up.
Definition no_upload_env : Env := sample_env (inr 1%nat) false (mkUp true false true true).
Definition no_confirm_env : Env := sample_env (inr 1%nat) false (mkUp true true false true).
Definition no_respond_env : Env := sample_env (inr 1%nat) false (mkUp true true true false).

(** A browser in whose local storage a token has been put, as the login page
    does. *)
Definition logged_in (token : string) : Browser :=
  mkBrowser [] {[ "token" := token ]} [] [] [] [] [].

Definition fresh_hook : World Hook := mkWorld initial_hook empty_browser.
Definition fresh_home : World Home := mkWorld initial_home empty_browser.

(** A run of user actions, each in its own environment and each taken once
    the handler of the one before has run to completion. *)
Definition play (script : list (Env * UiEvent)) (w : World Home) : World Home :=
  foldl (fun w step => exec (dispatch (fst step) (snd step)) w) w script.

Definition failing_admin : AdminEnv :=
  mkAdminEnv (inl network_error) (fun _ _ => inl network_error)
             (fun _ => inl network_error) (fun _ => inl network_error)
             (fun _ => inl network_error) (fun _ => inl network_error)
             (fun _ => inl network_error) (fun _ => inl network_error)
             (inl network_error) false.

Definition fresh_admin : World Admin := mkWorld (initial_admin "c-1") empty_browser.

(** ** The login page ([src/app/login/page.tsx]) *)

(** What [/api/auth/me] answers, as far as the client looks into it. *)
Record Me : Type := mkMe { me_name : string; me_role : string }.

(** The answers of the authentication endpoints.  [getMe] is answered
    according to the [Authorization] header the request arrives with. *)
Record AuthEnv : Type := mkAuthEnv {
  auth_login : string -> string -> JsError + string;     (* the [access_token] *)
  auth_getMe : option string -> JsError + Me
}.

Record LoginPage : Type := mkLoginPage {
  email : string;
  password : string;
  login_error : string;
  login_loading : bool;
  login_pushed : list string          (* ghost: the paths given to [router.push] *)
}.

Definition initial_login_page : LoginPage := mkLoginPage "" "" "" false [].

Definition setLoginError (v : string) : M (World LoginPage) unit :=
  on_view (fun p => mkLoginPage (email p) (password p) v (login_loading p) (login_pushed p)).
Definition setLoginLoading (v : bool) : M (World LoginPage) unit :=
  on_view (fun p => mkLoginPage (email p) (password p) (login_error p) v (login_pushed p)).
Definition login_push (path : string) : M (World LoginPage) unit :=
  on_view (fun p => mkLoginPage (email p) (password p) (login_error p) (login_loading p)
                                (login_pushed p ++ [path])).

(** [localStorage.setItem(key, value)] *)
Definition localStorage_setItem {P} (key value : string) : M (World P) unit :=
  on_browser (fun b =>
    mkBrowser (console b) (<[key := value]> (localStorage b)) (streams b) (recorders b)
              (constraints_asked b) (sent b) (rejections b)).

Section Auth.

Variable Au : AuthEnv.

Definition authApi_login {P} (email password : string) : M (World P) string :=
  call (Login email password) (auth_login Au email password).

Definition authApi_getMe {P} : M (World P) Me :=
  b <- get_browser ;;
  call GetMe (auth_getMe Au (authorization (request_of (localStorage b) GetMe))).

Definition handleSubmit : M (World LoginPage) unit :=
  p <- get_view ;;
  setLoginError "" ;;
  setLoginLoading true ;;
  try_finally
    (try_catch
       (access_token <- authApi_login (email p) (password p) ;;
        localStorage_setItem "token" access_token ;;
        user <- authApi_getMe ;;
        if String.eqb (me_role user) "admin" then login_push "/admin" else login_push "/")
       (fun _ => setLoginError "Неверный email или пароль"))
    (setLoginLoading false).

End Auth.

(** ** The admin layout (the second module of [src/app/admin/users/page.tsx]) *)

Record AdminLayout : Type := mkAdminLayout {
  layout_loading : bool;
  layout_user : option Me;
  layout_pushed : list string         (* ghost: the paths given to [router.push] *)
}.

Definition initial_layout : AdminLayout := mkAdminLayout true None [].

Definition setLayoutLoading (v : bool) : M (World AdminLayout) unit :=
  on_view (fun p => mkAdminLayout v (layout_user p) (layout_pushed p)).
Definition setLayoutUser (v : option Me) : M (World AdminLayout) unit :=
  on_view (fun p => mkAdminLayout (layout_loading p) v (layout_pushed p)).
Definition layout_push (path : string) : M (World AdminLayout) unit :=
  on_view (fun p => mkAdminLayout (layout_loading p) (layout_user p)
                                  (layout_pushed p ++ [path])).

Section Layout.

Variable Au : AuthEnv.

Definition checkAuth : M (World AdminLayout) unit :=
  try_finally
    (try_catch
       (me <- authApi_getMe Au ;;
        if negb (String.eqb (me_role me) "admin") then layout_push "/"
        else setLayoutUser (Some me))
       (fun _ => layout_push "/login"))
    (setLayoutLoading false).

End Layout.

(** ** The confirmation screen ([src/components/ConfirmationScreen.tsx]) *)

Section Confirmation.

(** [String.prototype.trim], which the model does not look into. *)
Variable trim : string -> string.
Variable E : Env.

(** [handleCorrectSubmit]: the text handed to [onCorrect], if it is called.
    (The handler then leaves the editing mode in either case.) *)
Definition handleCorrectSubmit (transcript editedText : string) : option string :=
  if truthy (Some (trim editedText)) && negb (String.eqb editedText transcript)
  then Some (trim editedText)
  else None.

(** The button "save the correction" of the screen the page renders in
    [confirming], with [transcript = transcription.normalized_transcript]
    and [onCorrect = handleCorrect]. *)
Definition submit_edit (editedText : string) : M (World Home) unit :=
  p <- get_view ;;
  match transcription p with
  | Some t =>
      if confirmation_shown p then
        match handleCorrectSubmit (normalized_transcript t) editedText with
        | Some text => handleCorrect E text
        | None => ret tt
        end
      else ret tt
  | None => ret tt
  end.

End Confirmation.

(** ** The response player ([src/components/ResponsePlayer.tsx]) *)

(** [fullAudioUrl], given the value of [process.env.NEXT_PUBLIC_API_URL]. *)
Definition fullAudioUrl (NEXT_PUBLIC_API_URL : option string) (audioUrl : string) : string :=
  if String.prefix "http" audioUrl then audioUrl
  else match NEXT_PUBLIC_API_URL with
       | Some base => if truthy NEXT_PUBLIC_API_URL then base +:+ audioUrl
                      else "http://localhost:8000" +:+ audioUrl
       | None => "http://localhost:8000" +:+ audioUrl
       end.

(** ** More of the back-office pages *)

(** The strings the backend uses for the providers. *)
Definition provider_name (p : Provider) : string :=
  match p with openai => "openai" | google => "google" end.

Definition setEditForm (v : string * string) : M (World UsersPage) unit :=
  on_view (fun p => mkUsersPage (users p) (users_loading p) (editingId p) v).

(** [startEdit] of the users page. *)
Definition startEdit (user : User) : M (World UsersPage) unit :=
  setEditingId (Some (user_id user)) ;;
  setEditForm (provider_name (user_stt_provider user),
               provider_name (user_tts_provider user)).

(** [value || undefined] of the filter inputs. *)
Definition or_undefined (value : string) : option string :=
  if truthy (Some value) then Some value else None.

(** The [onChange] handlers of the conversation filters. *)
Inductive FilterEdit : Type :=
| EditUser (value : string)
| EditProvider (value : string)
| EditDateFrom (value : string)
| EditDateTo (value : string)
| EditLowConfidence (checked : bool).

Definition edit_filter (e : FilterEdit) (f : ConversationFilter) : ConversationFilter :=
  match e with
  | EditUser v =>
      mkConversationFilter (or_undefined v) (f_provider f) (f_date_from f) (f_date_to f)
                           (f_low_confidence f)
  | EditProvider v =>
      mkConversationFilter (f_user_id f) (or_undefined v) (f_date_from f) (f_date_to f)
                           (f_low_confidence f)
  | EditDateFrom v =>
      mkConversationFilter (f_user_id f) (f_provider f) (or_undefined v) (f_date_to f)
                           (f_low_confidence f)
  | EditDateTo v =>
      mkConversationFilter (f_user_id f) (f_provider f) (f_date_from f) (or_undefined v)
                           (f_low_confidence f)
  | EditLowConfidence checked =>
      mkConversationFilter (f_user_id f) (f_provider f) (f_date_from f) (f_date_to f)
                           (if checked then Some true else None)
  end.

Definition setFilter (e : FilterEdit) : M (World ConversationsPage) unit :=
  on_view (fun p => mkConversationsPage (conversations p) (conv_users p)
                                        (conversations_loading p)
                                        (edit_filter e (conv_filter p))).

(** A run of filter edits. *)
Definition edit_filters (edits : list FilterEdit) (w : World ConversationsPage)
  : World ConversationsPage :=
  foldl (fun w e => exec (setFilter e) w) w edits.

(** A filter none of whose fields holds an empty string or [false]. *)
Definition tidy_filter (f : ConversationFilter) : Prop :=
  f_user_id f ≠ Some "" ∧ f_provider f ≠ Some "" ∧ f_date_from f ≠ Some ""
  ∧ f_date_to f ≠ Some "" ∧ f_low_confidence f ≠ Some false.

(** A query parameter that is absent, a non-empty string, or [true]. *)
Definition tidy_param (v : Json) : Prop :=
  v = JUndefined ∨ (∃ s, v = JStr s ∧ s ≠ "") ∨ v = JBool true.

(** Strings are kept as the bytes of their UTF-8 encoding, while JavaScript
    measures and slices a string by its UTF-16 code units.  [utf16 s] is the
    sequence of code units of the string that [s] encodes: one unit for a
    character of one, two or three bytes, a surrogate pair for a character
    of four.  A byte that does not begin a sequence of the expected shape
    decodes to U+FFFD, as in [TextDecoder]. *)
Definition continuation (c : Ascii.ascii) : option N :=
  let n := Ascii.N_of_ascii c in
  if ((128 <=? n) && (n <? 192))%N then Some (n - 128)%N else None.

Fixpoint utf16 (s : string) : list N :=
  match s with
  | EmptyString => []
  | String c0 rest =>
      let b0 := Ascii.N_of_ascii c0 in
      if (b0 <? 128)%N then b0 :: utf16 rest
      else
        match rest with
        | String c1 rest1 =>
            match continuation c1 with
            | Some x1 =>
                if ((194 <=? b0) && (b0 <? 224))%N
                then ((b0 - 192) * 64 + x1)%N :: utf16 rest1
                else
                  match rest1 with
                  | String c2 rest2 =>
                      match continuation c2 with
                      | Some x2 =>
                          if ((224 <=? b0) && (b0 <? 240))%N
                          then ((b0 - 224) * 4096 + x1 * 64 + x2)%N :: utf16 rest2
                          else
                            match rest2 with
                            | String c3 rest3 =>
                                match continuation c3 with
                                | Some x3 =>
                                    let cp := ((b0 - 240) * 262144 + x1 * 4096
                                               + x2 * 64 + x3)%N in
                                    if ((240 <=? b0) && (b0 <? 245) && (65536 <=? cp)
                                        && (cp <? 1114112))%N
                                    then (55296 + (cp - 65536) / 1024)%N
                                         :: (56320 + (cp - 65536) mod 1024)%N
                                         :: utf16 rest3
                                    else 65533%N :: utf16 rest
                                | None => 65533%N :: utf16 rest
                                end
                            | EmptyString => 65533%N :: utf16 rest
                            end
                      | None => 65533%N :: utf16 rest
                      end
                  | EmptyString => 65533%N :: utf16 rest
                  end
            | None => 65533%N :: utf16 rest
            end
        | EmptyString => [65533%N]
        end
  end.

(** [s.slice(0, n)], on the code units of [s]. *)
Definition slice_to (n : nat) (units : list N) : list N := take n units.

(** [getUserName] of the conversations page:
    [const user = users.find((u) => u.id === userId);
     return user?.name || userId.slice(0, 8);]
    The result is given by its code units, since the slice can end inside a
    character. *)
Definition getUserName (users : list User) (userId : string) : list N :=
  match List.find (fun u => String.eqb (user_id u) userId) users with
  | Some user =>
      if truthy (Some (user_name user)) then utf16 (user_name user)
      else slice_to 8 (utf16 userId)
  | None => slice_to 8 (utf16 userId)
  end.

(** [conv.user_name || getUserName(conv.user_id)]: the user cell of a row. *)
Definition user_cell (users : list User) (conv : Conversation) : list N :=
  match conv_user_name conv with
  | Some name =>
      if truthy (Some name) then utf16 name else getUserName users (conv_user_id conv)
  | None => getUserName users (conv_user_id conv)
  end.

(** The operations that load the data of a page, and the flag each one
    ends by clearing. *)
Definition is_load (op : AdminOp) : bool :=
  match op with
  | OpLoadUsers | OpLoadTerms | OpLoadAnalytics | OpLoadData | OpApplyFilter
  | OpLoadConversation => true
  | _ => false
  end.

Definition op_loading (op : AdminOp) (a : Admin) : bool :=
  match op with
  | OpLoadUsers | OpSaveEdit _ => users_loading (usersPage a)
  | OpLoadTerms | OpApprove _ | OpReject _ | OpAddTerm => terms_loading (termsPage a)
  | OpLoadAnalytics => analytics_loading (analyticsPage a)
  | OpLoadData | OpApplyFilter => conversations_loading (conversationsPage a)
  | OpLoadConversation => detail_loading (detailPage a)
  end.

(** ** Runs of the hook and of the page *)

(** What can happen to the hook: its two operations, each in the environment
    of the moment and each run to completion before the next, and the chunks
    a recorder delivers in between. *)
Inductive HookOp : Type :=
| HStart (E : Env)
| HData (chunk : Blob)
| HStop (E : Env).

Definition hook_step (op : HookOp) (w : World Hook) : World Hook :=
  match op with
  | HStart E => exec (startRecording E) w
  | HData chunk => exec (ondataavailable chunk) w
  | HStop E => exec (stopRecording E) w
  end.

Definition hook_run (ops : list HookOp) (w : World Hook) : World Hook :=
  foldl (fun w op => hook_step op w) w ops.

(** Every recorder sits on a stream that was handed out, and none is left in
    the paused state (the hook never pauses). *)
Definition recorders_ok (b : Browser) : Prop :=
  ∀ r mr, recorders b !! r = Some mr →
          (mr_stream mr < length (streams b))%nat ∧ mr_state mr ≠ rs_paused.

(** The stream the reference leads to is not stream [i]. *)
Definition unreachable_stream (i : nat) (w : World Hook) : Prop :=
  ∀ r mr, mediaRecorderRef (view w) = Some r →
          recorders (browser w) !! r = Some mr → mr_stream mr ≠ i.

(** The flag of the hook tells the state of the recorder it refers to. *)
Record hook_inv (w : World Hook) : Prop := mkHookInv {
  inv_recording : recording_ok w;
  inv_idle :
    isRecording (view w) = false →
    ∀ r, mediaRecorderRef (view w) = Some r →
         ∃ mr, recorders (browser w) !! r = Some mr ∧ mr_state mr = rs_inactive
}.

(** The changes of flow state the handlers of the page can make. *)
Definition flow_edge (a b : AppState) : bool :=
  match a, b with
  | idle, recording            (* press *)
  | recording, recording       (* press again *)
  | recording, processing      (* release *)
  | processing, confirming     (* transcript received *)
  | processing, idle           (* no session, or a failure *)
  | confirming, responding     (* confirmation or correction *)
  | confirming, idle           (* retry *)
  | responding, playing        (* reply received *)
  | responding, idle           (* a failure *)
  | playing, idle => true      (* playback complete *)
  | _, _ => false
  end.

(** [l] is a walk along the edges that starts from [s]. *)
Fixpoint follows (s : AppState) (l : list AppState) : bool :=
  match l with
  | [] => true
  | x :: rest => flow_edge s x && follows x rest
  end.

(** The states in which the page waits for the user. *)
Definition settled (s : AppState) : bool :=
  match s with
  | idle | recording | confirming | playing => true
  | processing | responding => false
  end.

(** What holds of the page between two user actions, beyond [coherent]. *)
Record steady (w : World Home) : Prop := mkSteady {
  steady_coherent : coherent w;
  steady_settled : settled (state (view w)) = true;
  steady_recording : isRecording (recorder (view w)) = true → state (view w) = recording;
  steady_trail : default idle (last (trail (view w))) = state (view w)
}.

(** From [w] to [w'] the flow state has moved along the edges. *)
Definition moves_along (w w' : World Home) : Prop :=
  ∃ l, trail (view w') = trail (view w) ++ l ∧ follows (state (view w)) l = true.

(** The requests an action has added to the log. *)
Definition new_requests {P} (w w' : World P) : list Request :=
  drop (length (sent (browser w))) (sent (browser w')).

(** ** More sample environments *)

Definition sample_me (role : string) : Me := mkMe "Айгуль" role.

(** A backend that accepts the password [secret], issues [token-1] for it,
    and knows the bearer of that token as having [role]. *)
Definition sample_auth (role : string) : AuthEnv :=
  mkAuthEnv
    (fun _ password => if String.eqb password "secret" then inr "token-1"
                       else inl network_error)
    (fun header => match header with
                   | Some "Bearer token-1" => inr (sample_me role)
                   | _ => inl network_error
                   end).

(** A backend that issues tokens it does not recognize afterwards. *)
Definition forgetful_auth : AuthEnv :=
  mkAuthEnv (fun _ _ => inr "token-2") (fun _ => inl network_error).

Definition login_form (email password : string) : World LoginPage :=
  mkWorld (mkLoginPage email password "" false []) (logged_in "stale").

Definition fresh_layout (b : Browser) : World AdminLayout := mkWorld initial_layout b.

(** An environment whose backend creates sessions with an empty identifier. *)
Definition empty_session_env : Env :=
  mkEnv (fun _ => inr 1%nat) (fun _ => true) (mkBlob [3; 4]%Z opus) false "Mozilla/5.0"
        (fun _ => inr (mkSessionResponse ""))
        (fun _ _ => inr sample_transcript)
        (fun _ _ _ _ => inr (mkConfirmResponse true))
        (fun _ _ _ => inr sample_reply).

(** An environment whose recorder constructor refuses every MIME type. *)
Definition no_codec_env : Env :=
  mkEnv (fun _ => inr 2%nat) (fun _ => false) (mkBlob [3; 4]%Z opus) false "Mozilla/5.0"
        (fun _ => inr (mkSessionResponse "session-1"))
        (fun _ _ => inr sample_transcript)
        (fun _ _ _ _ => inr (mkConfirmResponse true))
        (fun _ _ _ => inr sample_reply).

(** A trim of blanks, enough to run the confirmation screen on examples. *)
Fixpoint drop_blanks (s : string) : string :=
  match s with
  | String c rest => if Ascii.eqb c (Ascii.ascii_of_nat 32) then drop_blanks rest else s
  | EmptyString => s
  end.

Definition trim_blanks (s : string) : string :=
  String.rev (drop_blanks (String.rev (drop_blanks s))).

Definition sample_user : User :=
  mkUser "u-12345678-abcd" "Марат" senior ru openai google false "2024-01-01" None.

Definition working_admin : AdminEnv :=
  mkAdminEnv (inr [sample_user]) (fun _ _ => inr sample_user)
             (fun _ => inr []) (fun _ => inl network_error)
             (fun _ => inr []) (fun _ => inl network_error)
             (fun _ => inl network_error) (fun _ => inl network_error)
             (inl network_error) false.

(** ** Routes *)

(** The exported function of [services/api.ts] a call goes through. *)
Definition function_of (e : Endpoint) : string :=
  match e with
  | CreateSession _ => "voiceApi.createSession"
  | UploadAudio _ _ => "voiceApi.uploadAudio"
  | ConfirmTranscript _ _ _ _ => "voiceApi.confirmTranscript"
  | GenerateResponse _ _ _ => "voiceApi.generateResponse"
  | EndSession _ => "voiceApi.endSession"
  | Login _ _ => "authApi.login"
  | GetMe => "authApi.getMe"
  | GetUsers => "adminApi.getUsers"
  | UpdateUser _ _ => "adminApi.updateUser"
  | GetConversations _ => "adminApi.getConversations"
  | GetConversation _ => "adminApi.getConversation"
  | GetUnknownTerms _ => "adminApi.getUnknownTerms"
  | CreateUnknownTerm _ => "adminApi.createUnknownTerm"
  | ApproveTerm _ => "adminApi.approveTerm"
  | RejectTerm _ => "adminApi.rejectTerm"
  | GetAnalytics => "adminApi.getAnalytics"
  end.

(** The argument a function splices into its URL template, if it has one. *)
Definition path_argument (e : Endpoint) : option string :=
  match e with
  | UploadAudio sessionId _ | ConfirmTranscript sessionId _ _ _
  | GenerateResponse sessionId _ _ | EndSession sessionId => Some sessionId
  | UpdateUser userId _ => Some userId
  | GetConversation id | ApproveTerm id | RejectTerm id => Some id
  | _ => None
  end.

(** * Properties *)

(** ** The API client *)

Lemma config_of_no_authorization (e : Endpoint) :
  authorization (config_of e) = None.
Proof. destruct e; reflexivity. Qed.

Lemma request_interceptor_authorization storage cfg :
  authorization cfg = None →
  authorization (request_interceptor storage cfg) =
    match storage !! "token" with
    | Some t => if truthy (Some t) then Some ("Bearer " +:+ t) else None
    | None => None
    end.
Proof.
  intros Hcfg. unfold request_interceptor.
  destruct (storage !! "token") as [t|]; [|done].
  destruct (truthy (Some t)); [|done].
  unfold authorization; simpl. apply lookup_insert_eq.
Qed.

Lemma truthy_non_empty (t : string) : t ≠ "" → truthy (Some t) = true.
Proof. by destruct t. Qed.

(** What a call leaves in the request log. *)
Lemma call_sent {P X} (e : Endpoint) (answer : JsError + X) (w : World P) :
  sent (browser (exec (call e answer) w)) =
    sent (browser w) ++ [request_of (localStorage (browser w)) e].
Proof. unfold call, exec. by destruct answer. Qed.

(** C6. Every request the client issues carries [Authorization: Bearer <token>]
    when a token, that is a non-empty string, is stored under [token] in
    local storage, and carries no [Authorization] header when nothing is
    stored there.  The interceptor tests the stored value for truthiness, so
    a stored empty string counts as no token.  This holds of each exported
    function of the client, whatever the backend then answers. *)
Theorem bearer_token_attached {P X} (e : Endpoint) (answer : JsError + X)
    (w : World P) :
  ∃ request,
    sent (browser (exec (call e answer) w)) = sent (browser w) ++ [request]
    ∧ (∀ t, localStorage (browser w) !! "token" = Some t → t ≠ "" →
            authorization request = Some ("Bearer " +:+ t))
    ∧ (localStorage (browser w) !! "token" = None → authorization request = None)
    ∧ (localStorage (browser w) !! "token" = Some "" → authorization request = None).
Proof.
  exists (request_of (localStorage (browser w)) e).
  split; [apply call_sent|]. unfold request_of.
  rewrite request_interceptor_authorization by apply config_of_no_authorization.
  repeat split.
  - intros t -> Ht. by rewrite truthy_non_empty.
  - by intros ->.
  - by intros ->.
Qed.

Lemma bearer_token_attached_witness :
  map authorization
      (sent (browser (exec (call (A:=unit) GetMe (inl network_error))
                           (mkWorld initial_home (logged_in "abc")))))
    = [Some "Bearer abc"]
  ∧ map authorization
        (sent (browser (exec (call (A:=unit) GetMe (inl network_error)) fresh_home)))
    = [None].
Proof.
  destruct (bearer_token_attached (X:=unit) GetMe (inl network_error)
              (mkWorld initial_home (logged_in "abc"))) as (r1 & -> & H1 & _).
  destruct (bearer_token_attached (X:=unit) GetMe (inl network_error) fresh_home)
    as (r2 & -> & _ & H2 & _).
  split; cbn.
  - by rewrite (H1 "abc").
  - by rewrite H2.
Defined.

(** ** The audio-capture hook *)

Lemma lookup_snoc {X} (l : list X) (x : X) : (l ++ [x]) !! length l = Some x.
Proof. by rewrite list_lookup_middle. Qed.

Lemma insert_snoc {X} (l : list X) (x y : X) : <[length l := y]> (l ++ [x]) = l ++ [y].
Proof.
  rewrite insert_app_r_alt by lia. by rewrite Nat.sub_diag.
Qed.

(** A start that is granted a stream and a recorder. *)
Lemma startRecording_granted (E : Env) (w : World Hook) (n : nat) :
  env_getUserMedia E audio_constraints = inr n →
  env_isTypeSupported E opus = true →
  startRecording E w =
    (Val tt,
     let b := browser w in
     mkWorld (mkHook true (audioBlob (view w)) None (Some (length (recorders b))) [])
             (mkBrowser (console b) (localStorage b)
                        (streams b ++ [replicate n live])
                        (recorders b ++
                           [mkMediaRecorder (length (streams b)) opus rs_recording (Some 100%Z)])
                        (constraints_asked b ++ [audio_constraints])
                        (sent b) (rejections b))).
Proof.
  intros Hmic Hmime. destruct w as [h b].
  unfold startRecording, try_catch, bind, getUserMedia, new_MediaRecorder, recorder_start.
  cbn. rewrite Hmic. cbn. rewrite Hmime. cbn.
  rewrite lookup_snoc. cbn. by rewrite insert_snoc.
Qed.

(** A start that is refused the microphone. *)
Lemma startRecording_refused (E : Env) (w : World Hook) (err : JsError) :
  env_getUserMedia E audio_constraints = inl err →
  startRecording E w =
    (Val tt,
     let b := browser w in
     mkWorld (mkHook (isRecording (view w)) (audioBlob (view w))
                     (Some "Не удалось получить доступ к микрофону")
                     (mediaRecorderRef (view w)) [])
             (mkBrowser (console b ++ [("Error starting recording:", err)])
                        (localStorage b) (streams b) (recorders b)
                        (constraints_asked b ++ [audio_constraints])
                        (sent b) (rejections b))).
Proof.
  intros Hmic. destruct w as [h b].
  unfold startRecording, try_catch, bind, getUserMedia. cbn. by rewrite Hmic.
Qed.

(** A start whose recorder constructor refuses the MIME type: the stream
    that was handed out stays open. *)
Lemma startRecording_unsupported (E : Env) (w : World Hook) (n : nat) :
  env_getUserMedia E audio_constraints = inr n →
  env_isTypeSupported E opus = false →
  startRecording E w =
    (Val tt,
     let b := browser w in
     mkWorld (mkHook (isRecording (view w)) (audioBlob (view w))
                     (Some "Не удалось получить доступ к микрофону")
                     (mediaRecorderRef (view w)) [])
             (mkBrowser (console b ++ [("Error starting recording:",
                                        DOMException "NotSupportedError")])
                        (localStorage b) (streams b ++ [replicate n live]) (recorders b)
                        (constraints_asked b ++ [audio_constraints])
                        (sent b) (rejections b))).
Proof.
  intros Hmic Hmime. destruct w as [h b].
  unfold startRecording, try_catch, bind, getUserMedia, new_MediaRecorder.
  cbn. rewrite Hmic. cbn. by rewrite Hmime.
Qed.

(** The three ways a start can go. *)
Ltac start_cases E w :=
  let n := fresh "n" in
  let err := fresh "err" in
  let Hmic := fresh "Hmic" in
  let Hmime := fresh "Hmime" in
  destruct (env_getUserMedia E audio_constraints) as [err|n] eqn:Hmic;
  [ rewrite (startRecording_refused E w err Hmic)
  | destruct (env_isTypeSupported E opus) eqn:Hmime;
    [ rewrite (startRecording_granted E w n Hmic Hmime)
    | rewrite (startRecording_unsupported E w n Hmic Hmime) ] ].

(** Starting never rejects: every failure is caught inside the hook. *)
Lemma startRecording_resolves (E : Env) (w : World Hook) :
  result (startRecording E) w = Val tt.
Proof. unfold result. start_cases E w; reflexivity. Qed.

Lemma startRecording_asks (E : Env) (w : World Hook) :
  constraints_asked (browser (exec (startRecording E) w)) =
    constraints_asked (browser w) ++ [audio_constraints].
Proof. unfold exec. start_cases E w; reflexivity. Qed.

(** C4, as the code has it.  Every start asks for the capture stream with
    echo cancellation on, noise suppression on and a 16 kHz sample rate;
    it puts no constraint on the number of channels. *)
Theorem start_requests_capture_parameters (E : Env) (w : World Hook) :
  ∃ asked,
    constraints_asked (browser (exec (startRecording E) w)) =
      constraints_asked (browser w) ++ [asked]
    ∧ audio_param "echoCancellation" asked = JBool true
    ∧ audio_param "noiseSuppression" asked = JBool true
    ∧ audio_param "sampleRate" asked = JNum 16000
    ∧ audio_param "channelCount" asked = JUndefined.
Proof.
  exists audio_constraints. split; [apply startRecording_asks|]. by repeat split.
Qed.

(** C4, the claim refuted: the stream a start asks for is not constrained to
    one channel. *)
Lemma start_does_not_request_mono :
  map (audio_param "channelCount")
      (constraints_asked (browser (exec (startRecording happy_env) fresh_hook)))
  = [JUndefined].
Proof. reflexivity. Qed.

(** C5. Nothing guards a second start.  When a capture is active (the
    reference holds a recorder that is recording) and the browser grants the
    request, a further start resolves, acquires a new stream, and points the
    reference at a new recorder on that stream; the previous recorder goes on
    recording and the tracks of its stream are left as they were. *)
Theorem second_start_unguarded (E : Env) (w : World Hook) (r n : nat)
    (mr : MediaRecorder) (tracks : list ReadyState) :
  mediaRecorderRef (view w) = Some r →
  recorders (browser w) !! r = Some mr →
  mr_state mr = rs_recording →
  streams (browser w) !! mr_stream mr = Some tracks →
  env_getUserMedia E audio_constraints = inr n →
  env_isTypeSupported E opus = true →
  let w' := exec (startRecording E) w in
  result (startRecording E) w = Val tt
  ∧ streams (browser w') = streams (browser w) ++ [replicate n live]
  ∧ (∃ r', mediaRecorderRef (view w') = Some r' ∧ r' ≠ r ∧
           recorders (browser w') !! r' =
             Some (mkMediaRecorder (length (streams (browser w))) opus
                                   rs_recording (Some 100%Z)))
  ∧ recorders (browser w') !! r = Some mr
  ∧ streams (browser w') !! mr_stream mr = Some tracks.
Proof.
  intros Href Hrec Hstate Hstream Hmic Hmime w'. subst w'.
  unfold exec, result. rewrite (startRecording_granted E w n Hmic Hmime). cbn.
  split; [done|]. split; [done|]. split; [|split].
  - exists (length (recorders (browser w))). split; [done|]. split.
    + apply lookup_lt_Some in Hrec. lia.
    + apply lookup_snoc.
  - by apply lookup_app_l_Some.
  - by apply lookup_app_l_Some.
Qed.

Lemma second_start_unguarded_witness :
  let w := exec (startRecording happy_env) fresh_hook in
  let w' := exec (startRecording happy_env) w in
  mediaRecorderRef (view w) = Some 0
  ∧ mediaRecorderRef (view w') = Some 1
  ∧ recorders (browser w') !! 0 =
      Some (mkMediaRecorder 0 opus rs_recording (Some 100%Z))
  ∧ streams (browser w') = [[live]; [live]].
Proof.
  intros w w'.
  destruct (second_start_unguarded happy_env w 0 1
              (mkMediaRecorder 0 opus rs_recording (Some 100%Z)) [live])
    as (_ & Hs & _ & Hr & _); try reflexivity.
  repeat split; try reflexivity; assumption.
Defined.

Lemma keep_non_empty (c : Blob) :
  (if (0 <? blob_size c)%nat then [c] else []) = filter non_empty [c].
Proof.
  unfold filter, list_filter, non_empty.
  destruct (Nat.ltb_spec 0 (blob_size c)); case_decide; try lia; reflexivity.
Qed.

(** One [dataavailable] event: the chunk is appended when it is not empty. *)
Lemma ondataavailable_spec (c : Blob) (w : World Hook) :
  exec (ondataavailable c) w =
    mkWorld (mkHook (isRecording (view w)) (audioBlob (view w)) (hook_error (view w))
                    (mediaRecorderRef (view w))
                    (chunksRef (view w) ++ filter non_empty [c]))
            (browser w).
Proof.
  destruct w as [[i a e m cs] b]. rewrite <- keep_non_empty.
  unfold exec, ondataavailable, bind. cbn -[Nat.ltb].
  destruct (0 <? blob_size c)%nat; cbn; [reflexivity | by rewrite app_nil_r].
Qed.

Lemma deliver_spec (chunks : list Blob) (w : World Hook) :
  deliver chunks w =
    mkWorld (mkHook (isRecording (view w)) (audioBlob (view w)) (hook_error (view w))
                    (mediaRecorderRef (view w))
                    (chunksRef (view w) ++ filter non_empty chunks))
            (browser w).
Proof.
  unfold deliver. revert w. induction chunks as [|c chunks IH]; intros w.
  - destruct w as [[i a e m cs] b]. cbn. by rewrite app_nil_r.
  - cbn [foldl]. rewrite IH, ondataavailable_spec. cbn [view browser isRecording
      audioBlob hook_error mediaRecorderRef chunksRef].
    by rewrite <- app_assoc, <- filter_app.
Qed.

(** Stopping while the referenced recorder is active. *)
Lemma stopRecording_active (E : Env) (w : World Hook) (r : nat) (mr : MediaRecorder) :
  mediaRecorderRef (view w) = Some r →
  recorders (browser w) !! r = Some mr →
  mr_state mr ≠ rs_inactive →
  stopRecording E w =
    (Val (captured E (view w)),
     let b := browser w in
     mkWorld (mkHook false (Some (captured E (view w))) (hook_error (view w)) (Some r)
                     (chunksRef (view w) ++ filter non_empty [env_final_chunk E]))
             (mkBrowser (console b) (localStorage b)
                        (alter (fmap (fun _ => ended)) (mr_stream mr) (streams b))
                        (<[r := mkMediaRecorder (mr_stream mr) (mr_mimeType mr) rs_inactive
                                                (mr_timeslice mr)]> (recorders b))
                        (constraints_asked b) (sent b) (rejections b))).
Proof.
  intros Href Hrec Hstate. destruct w as [[i a e m cs] b]. cbn in Href, Hrec. subst m.
  rewrite <- keep_non_empty. unfold captured.
  unfold stopRecording, bind, recorder_stop. cbn -[Nat.ltb]. rewrite Hrec.
  destruct (mr_state mr) eqn:Hs; [done| |];
    unfold ondataavailable, bind; cbn -[Nat.ltb];
    destruct (0 <? blob_size (env_final_chunk E))%nat; cbn;
    rewrite ?app_nil_r; reflexivity.
Qed.

(** C3. One start/stop cycle: a granted start empties the chunk buffer; after
    any sequence of [dataavailable] events the stop resolves with one
    payload, the concatenation of exactly the non-empty chunks delivered
    since that start (the recorder's last chunk included), and every track of
    the stream acquired by that start is stopped. *)
Theorem stop_returns_the_capture (E : Env) (w : World Hook) (n : nat)
    (chunks : list Blob) :
  env_getUserMedia E audio_constraints = inr n →
  env_isTypeSupported E opus = true →
  let w1 := exec (startRecording E) w in
  let w2 := deliver chunks w1 in
  let w3 := exec (stopRecording E) w2 in
  let payload := new_Blob (filter non_empty (chunks ++ [env_final_chunk E])) "audio/webm" in
  chunksRef (view w1) = []
  ∧ result (stopRecording E) w2 = Val payload
  ∧ audioBlob (view w3) = Some payload
  ∧ isRecording (view w3) = false
  ∧ streams (browser w1) !! length (streams (browser w)) = Some (replicate n live)
  ∧ streams (browser w3) !! length (streams (browser w)) = Some (replicate n ended).
Proof.
  intros Hmic Hmime. cbv zeta. unfold exec, result.
  rewrite (startRecording_granted E w n Hmic Hmime), deliver_spec. cbn [snd].
  match goal with |- context [stopRecording E ?w0] => set (w2 := w0) end.
  assert (Hstop := stopRecording_active E w2 (length (recorders (browser w)))
                     (mkMediaRecorder (length (streams (browser w))) opus
                                      rs_recording (Some 100%Z))
                     eq_refl (lookup_snoc _ _) ltac:(by cbn)).
  assert (Hpayload : captured E (view w2) =
            new_Blob (filter non_empty (chunks ++ [env_final_chunk E])) "audio/webm").
  { unfold captured. rewrite keep_non_empty. subst w2.
    cbn [view chunksRef app]. by rewrite filter_app. }
  rewrite Hstop, Hpayload. subst w2. cbn.
  repeat split.
  - apply lookup_snoc.
  - rewrite list_lookup_alter, lookup_snoc. rewrite decide_True by done. cbn.
    by rewrite fmap_replicate.
Qed.

Lemma stop_returns_the_capture_witness :
  let chunks := [mkBlob [1]%Z opus; mkBlob [] opus; mkBlob [2]%Z opus] in
  let w2 := deliver chunks (exec (startRecording happy_env) fresh_hook) in
  result (stopRecording happy_env) w2 = Val (mkBlob [1; 2; 3; 4]%Z "audio/webm")
  ∧ streams (browser (exec (stopRecording happy_env) w2)) = [[ended]].
Proof.
  intros chunks w2.
  destruct (stop_returns_the_capture happy_env fresh_hook 1 chunks eq_refl eq_refl)
    as (_ & Hres & _).
  split; [exact Hres | reflexivity].
Defined.

(** A start that does not end up recording, whatever made it fail, leaves the
    recorder reference as it was. *)
Lemma failed_start_keeps_reference (E : Env) (w : World Hook) :
  isRecording (view (exec (startRecording E) w)) = false →
  mediaRecorderRef (view (exec (startRecording E) w)) = mediaRecorderRef (view w).
Proof. unfold exec. start_cases E w; cbn; done. Qed.

(** Until a start succeeds the reference stays null: a refused microphone or
    an unsupported MIME type does not set it, and chunks do not touch it. *)
Lemma reference_null_while_starts_fail (E : Env) (w : World Hook) :
  mediaRecorderRef (view w) = None →
  (∃ err, env_getUserMedia E audio_constraints = inl err)
  ∨ env_isTypeSupported E opus = false →
  mediaRecorderRef (view (exec (startRecording E) w)) = None.
Proof.
  intros Href Hfail. unfold exec. start_cases E w; cbn; [done | | done].
  destruct Hfail as [[? ?]|?]; congruence.
Qed.

(** A stop never clears the reference: once a recorder has been stopped, a
    further stop finds it there and does not answer [No active recording]. *)
Lemma second_stop_finds_the_reference (E E' : Env) (w : World Hook) (r : nat)
    (mr : MediaRecorder) :
  mediaRecorderRef (view w) = Some r →
  recorders (browser w) !! r = Some mr →
  mr_state mr ≠ rs_inactive →
  let w' := exec (stopRecording E) w in
  mediaRecorderRef (view w') = Some r
  ∧ result (stopRecording E') w' =
      if env_stop_inactive_throws E' then Exn (DOMException "InvalidStateError") else Hang.
Proof.
  intros Href Hrec Hactive. cbv zeta. unfold exec, result.
  rewrite (stopRecording_active E w r mr Href Hrec Hactive). cbn.
  split; [done|].
  unfold stopRecording, bind, recorder_stop. cbn.
  rewrite list_lookup_insert_eq by (by apply lookup_lt_Some in Hrec). cbn.
  by destruct (env_stop_inactive_throws E').
Qed.

(** C9. The hook at the input the claim fails on: a start, a stop, and a
    second stop.  No start has succeeded since the last stop, yet the
    reference still holds the stopped recorder (nothing ever sets it back to
    null), so the second stop passes the guard and does not reject with
    [No active recording]: it never settles in a browser whose [stop()]
    ignores inactive recorders, and rejects with the browser's
    InvalidStateError in one whose [stop()] throws.  On a hook that was
    never started the same call does reject with [No active recording] and
    changes nothing. *)
Lemma stop_after_stop_is_not_rejected_as_inactive :
  let cycle E := exec (stopRecording E) (exec (startRecording E) fresh_hook) in
  mediaRecorderRef (view (cycle happy_env)) = Some 0
  ∧ result (stopRecording happy_env) (cycle happy_env) = Hang
  ∧ result (stopRecording legacy_env) (cycle legacy_env) =
      Exn (DOMException "InvalidStateError")
  ∧ stopRecording happy_env fresh_hook = (Exn (Error "No active recording"), fresh_hook).
Proof. repeat split. Qed.

(** ** The voice-flow page *)

(** The guards of the components, one lemma per action. *)
Lemma dispatch_MouseDown (E : Env) (w : World Home) :
  state (view w) ≠ confirming ∧ state (view w) ≠ responding ∧ state (view w) ≠ playing
  ∧ state (view w) ≠ processing →
  dispatch E MouseDown w = handlePressStart E w.
Proof.
  intros (H1 & H2 & H3 & H4). destruct w as [[st sid t rsp er rc tl] b]. cbn in *.
  by destruct st.
Qed.

Lemma dispatch_MouseUp (E : Env) (w : World Home) :
  voice_button_shown (view w) = true →
  isRecording (recorder (view w)) = true →
  dispatch E MouseUp w = handlePressEnd E w.
Proof.
  intros H1 H2. destruct w as [[st sid t rsp er [i a e m cs] tl] b]. cbn in *.
  subst i. by destruct st.
Qed.

Lemma dispatch_confirmation (E : Env) (w : World Home) (ev : UiEvent) :
  confirmation_shown (view w) = true →
  dispatch E ev w =
    match ev with
    | ClickConfirm => handleConfirm E w
    | SubmitCorrection text => handleCorrect E text w
    | ClickRetry => handleRetry w
    | AudioEnded => (Val tt, w)
    | MouseDown => (Val tt, w)
    | MouseUp => (Val tt, w)
    end.
Proof.
  intros H. destruct w as [[st sid t rsp er rc tl] b].
  unfold confirmation_shown in H. cbn in H.
  destruct st; try discriminate. destruct t; try discriminate.
  by destruct ev.
Qed.

Lemma dispatch_AudioEnded (E : Env) (w : World Home) :
  player_shown (view w) = true →
  dispatch E AudioEnded w = handlePlaybackComplete w.
Proof.
  intros H. destruct w as [[st sid t rsp er rc tl] b]. unfold player_shown in H.
  cbn in H. destruct st; try discriminate. by destruct rsp.
Qed.

Lemma handlePressStart_spec (E : Env) (w : World Home) :
  handlePressStart E w =
    (Val tt,
     let wh := exec (startRecording E) (hook_world w) in
     let p := view w in
     mkWorld (mkHome recording (sessionId p) (transcription p) (response p) None
                     (view wh) (trail p ++ [recording]))
             (browser wh)).
Proof.
  unfold handlePressStart, bind, with_hook, zoom, exec, hook_world. cbn.
  pose proof (startRecording_resolves E (mkWorld (recorder (view w)) (browser w))) as Hres.
  unfold result in Hres.
  destruct (startRecording E _) as [r wh]. cbn in *. by subst r.
Qed.

(** C10. When the microphone is refused, the hook's start still resolves: it
    only logs the failure and sets its own [error], leaving [isRecording]
    false and creating no recorder.  The press-start handler, which awaits
    the start and then sets the flow state, therefore moves the page from
    [idle] to [recording] with no capture active and no page error. *)
Theorem press_start_ignores_refused_microphone (E : Env) (w : World Home)
    (err : JsError) :
  env_getUserMedia E audio_constraints = inl err →
  state (view w) = idle →
  isRecording (recorder (view w)) = false →
  let w' := exec (dispatch E MouseDown) w in
  result (startRecording E) (hook_world w) = Val tt
  ∧ result (dispatch E MouseDown) w = Val tt
  ∧ hook_error (recorder (view w')) = Some "Не удалось получить доступ к микрофону"
  ∧ isRecording (recorder (view w')) = false
  ∧ mediaRecorderRef (recorder (view w')) = mediaRecorderRef (recorder (view w))
  ∧ recorders (browser w') = recorders (browser w)
  ∧ streams (browser w') = streams (browser w)
  ∧ console (browser w') = console (browser w) ++ [("Error starting recording:", err)]
  ∧ error (view w') = None
  ∧ state (view w') = recording.
Proof.
  intros Hmic Hidle Hrec. cbv zeta.
  split; [apply startRecording_resolves|].
  unfold exec, result.
  rewrite (dispatch_MouseDown E w) by (rewrite Hidle; repeat split; discriminate).
  rewrite handlePressStart_spec. cbn.
  unfold exec. rewrite (startRecording_refused E _ err Hmic). cbn.
  by repeat split.
Qed.

Lemma press_start_ignores_refused_microphone_witness :
  let w' := exec (dispatch deaf_env MouseDown) fresh_home in
  state (view w') = recording ∧ isRecording (recorder (view w')) = false
  ∧ recorders (browser w') = [].
Proof.
  destruct (press_start_ignores_refused_microphone deaf_env fresh_home
              (DOMException "NotAllowedError") eq_refl eq_refl eq_refl)
    as (_ & _ & _ & Hrec & _ & Hrs & _ & _ & _ & Hst).
  repeat split; assumption.
Defined.

(** The hook talks to no backend: a stop leaves the request logs alone. *)
Lemma stopRecording_offline (E : Env) (w : World Hook) :
  sent (browser (exec (stopRecording E) w)) = sent (browser w)
  ∧ rejections (browser (exec (stopRecording E) w)) = rejections (browser w).
Proof.
  destruct w as [[i a e m cs] b].
  unfold exec, stopRecording, bind, recorder_stop. cbn -[Nat.ltb].
  destruct m as [r|]; [|done]. cbn -[Nat.ltb].
  destruct (recorders b !! r) as [mr|] eqn:Hrec; [|done].
  destruct (mr_state mr); [by destruct (env_stop_inactive_throws E) | |];
    unfold ondataavailable, bind; cbn -[Nat.ltb];
    destruct (0 <? blob_size (env_final_chunk E))%nat; done.
Qed.

#[local] Arguments stopRecording : simpl never.
#[local] Arguments startRecording : simpl never.
#[local] Arguments truthy : simpl never.

(** Unfolds a handler down to the answers of the environment. *)
Ltac unfold_handlers :=
  unfold step_handler, handlePressEnd, handleConfirm, handleCorrect, handleRetry,
    handlePlaybackComplete, initSession, voiceApi_createSession, voiceApi_uploadAudio,
    voiceApi_confirmTranscript, voiceApi_generateResponse, call, try_catch, bind,
    with_hook, zoom, exec, result in *.

Ltac split_answers :=
  repeat (cbn;
    match goal with
    | H : truthy ?x = _ |- context [truthy ?x] => rewrite H
    | |- context [truthy ?x] => destruct (truthy x) eqn:?
    | |- context [match ?x with inl _ => _ | inr _ => _ end] => destruct x eqn:?
    end).

(** C2. In each transitioning handler (release with its audio upload,
    confirmation, correction, each with its request for a reply), when the
    backend rejects a call the handler makes, the handler still completes,
    the flow state is set back to [idle] (the last state set), an error
    message is set, and that message is on screen. *)
Theorem network_failure_returns_to_idle (E : Env) (s : Transitioning)
    (w : World Home) :
  rejects E w s →
  let w' := exec (step_handler E s) w in
  result (step_handler E s) w = Val tt
  ∧ state (view w') = idle
  ∧ last (trail (view w')) = Some idle
  ∧ ∃ message, error (view w') = Some message ∧ error_banner (view w') = Some message.
Proof.
  intros Hrej. cbv zeta. destruct s as [| |text].
  - destruct Hrej as [(r & mr & Href & Hmr & Hactive) Hrej].
    pose proof (stopRecording_active E (hook_world w) r mr Href Hmr Hactive) as Hstop.
    destruct w as [[st sid t rsp er rc tl] b].
    unfold session_for, device_info, hook_world in *. cbn in Hrej, Hstop.
    unfold_handlers. cbn. rewrite Hstop. clear Hstop. cbn.
    destruct Hrej as [[Hsid [err Hcreate]]|(sid' & err & Hsid & Hup)].
    + rewrite Hsid. cbn. rewrite Hcreate. cbn. rewrite !last_snoc.
      destruct sid as [sid|]; cbn; rewrite ?last_snoc; by eauto 10.
    + destruct (truthy sid) eqn:Htruthy.
      * subst sid. cbn. rewrite Htruthy, Hup. cbn. rewrite last_snoc. by eauto 10.
      * destruct (env_createSession E _) as [?|[created]] eqn:Hcreate; [done|].
        cbn in Hsid. destruct (truthy (Some created)) eqn:Hcreated; [|done].
        injection Hsid as <-.
        destruct sid as [sid|]; cbn; rewrite ?Htruthy; cbn; rewrite Hcreated, Hup; cbn;
          rewrite last_snoc; by eauto 10.
  - destruct Hrej as (sid & t & Hsid & Hne & Ht & Hrej).
    destruct w as [[st sid0 t0 rsp er rc tl] b]. cbn in Hsid, Ht, Hrej. subst sid0 t0.
    unfold_handlers. cbn. rewrite (truthy_non_empty sid Hne). cbn.
    destruct Hrej as [[err Hc]|(c & err & Hc & Hr)]; rewrite Hc; cbn; rewrite ?Hr; cbn;
      rewrite last_snoc; by eauto 10.
  - destruct Hrej as (sid & t & Hsid & Hne & Ht & Hrej).
    destruct w as [[st sid0 t0 rsp er rc tl] b]. cbn in Hsid, Ht, Hrej. subst sid0 t0.
    unfold_handlers. cbn. rewrite (truthy_non_empty sid Hne). cbn.
    destruct Hrej as [[err Hc]|(c & err & Hc & Hr)]; rewrite Hc; cbn; rewrite ?Hr; cbn;
      rewrite last_snoc; by eauto 10.
Qed.

Lemma network_failure_returns_to_idle_witness :
  let pressed := play [(happy_env, MouseDown)] fresh_home in
  let heard := play [(happy_env, MouseDown); (happy_env, MouseUp)] fresh_home in
  let offline := sample_env (inr 1%nat) false (mkUp false true true true) in
  state (view (exec (step_handler no_upload_env StepRelease) pressed)) = idle
  ∧ state (view (exec (step_handler offline StepRelease) pressed)) = idle
  ∧ state (view (exec (step_handler no_confirm_env StepConfirm) heard)) = idle
  ∧ state (view (exec (step_handler no_respond_env (StepCorrect "Привет всем")) heard)) = idle.
Proof.
  intros pressed heard offline.
  assert (Hcapturing : capturing pressed).
  { exists 0%nat, (mkMediaRecorder 0 opus rs_recording (Some 100%Z)).
    split; [reflexivity|]. split; [reflexivity | discriminate]. }
  assert (H1 : rejects no_upload_env pressed StepRelease).
  { split; [exact Hcapturing|]. right. exists "session-1", network_error.
    split; reflexivity. }
  assert (H2 : rejects offline pressed StepRelease).
  { split; [exact Hcapturing|]. left. split; [reflexivity|].
    exists network_error. reflexivity. }
  assert (H3 : rejects no_confirm_env heard StepConfirm).
  { exists "session-1", sample_transcript.
    split; [reflexivity|]. split; [discriminate|]. split; [reflexivity|].
    left. exists network_error. reflexivity. }
  assert (H4 : rejects no_respond_env heard (StepCorrect "Привет всем")).
  { exists "session-1", sample_transcript.
    split; [reflexivity|]. split; [discriminate|]. split; [reflexivity|].
    right. exists (mkConfirmResponse true), network_error. split; reflexivity. }
  destruct (network_failure_returns_to_idle no_upload_env StepRelease pressed H1)
    as (_ & Hs1 & _).
  destruct (network_failure_returns_to_idle offline StepRelease pressed H2)
    as (_ & Hs2 & _).
  destruct (network_failure_returns_to_idle no_confirm_env StepConfirm heard H3)
    as (_ & Hs3 & _).
  destruct (network_failure_returns_to_idle no_respond_env (StepCorrect "Привет всем")
              heard H4) as (_ & Hs4 & _).
  split; [exact Hs1|]. split; [exact Hs2|]. split; [exact Hs3 | exact Hs4].
Defined.

(** C7. The page at the input the claim fails on: a turn is recorded and
    transcribed, and the confirmation of the transcript is then rejected by
    the backend.  The page is back in [idle], but the transcription of the
    failed turn is still held: the view state is neither the initial one nor
    the one playback completion leaves.  The two other ways back to [idle]
    from a turn, retry and playback completion, both set the transcription
    to null; the [catch] block does not.  Nothing has been written to local
    storage. *)
Lemma failed_confirmation_keeps_transcription :
  let turn := [(happy_env, MouseDown); (happy_env, MouseUp)] in
  let failed := play (turn ++ [(no_confirm_env, ClickConfirm)]) fresh_home in
  let played := play (turn ++ [(happy_env, ClickConfirm); (happy_env, AudioEnded)])
                     fresh_home in
  let retried := play (turn ++ [(happy_env, ClickRetry)]) fresh_home in
  state (view failed) = idle
  ∧ transcription (view failed) = Some sample_transcript
  ∧ transcription (view fresh_home) = None
  ∧ state (view played) = idle
  ∧ transcription (view played) = None
  ∧ state (view retried) = idle
  ∧ transcription (view retried) = None
  ∧ localStorage (browser failed) = ∅.
Proof. repeat split. Qed.

(** A start sends nothing to the backend. *)
Lemma startRecording_offline (E : Env) (w : World Hook) :
  sent (browser (exec (startRecording E) w)) = sent (browser w)
  ∧ localStorage (browser (exec (startRecording E) w)) = localStorage (browser w).
Proof. unfold exec. start_cases E w; done. Qed.

(** C1. The success paths of the voice flow are the specified ones.  From a
    coherent page, for each action the specification gives a transition for
    and whose calls all succeed: the handler completes, the states it sets
    are, in order, exactly those of the specification (no other state is
    produced), the page ends in the last of them, and the requests sent are
    the specified ones: the captured audio on release (after a session is
    created when there is none yet), the confirmation or correction followed
    by the request for a synthesized reply. *)
Theorem voice_flow_success_transitions (E : Env) (w : World Home) (ev : UiEvent)
    (path : list AppState) :
  coherent w →
  spec_transition (state (view w)) ev = Some path →
  succeeds E w ev →
  let w' := exec (dispatch E ev) w in
  result (dispatch E ev) w = Val tt
  ∧ trail (view w') = trail (view w) ++ path
  ∧ last path = Some (state (view w'))
  ∧ sent (browser w') =
      sent (browser w) ++
      map (request_of (localStorage (browser w))) (success_calls E (view w) ev).
Proof.
  intros [Hrec Hconf Hplay] Hspec Hok. cbv zeta. unfold exec, result.
  destruct (state (view w)) eqn:Hst, ev; try discriminate;
    injection Hspec as <-.
  - (* idle, press-start *)
    rewrite dispatch_MouseDown by (rewrite Hst; repeat split; discriminate).
    rewrite handlePressStart_spec. cbn.
    destruct (startRecording_offline E (hook_world w)) as [-> _].
    by rewrite app_nil_r.
  - (* recording, release *)
    destruct Hok as (Hrecording & sid & t & Hsid & Hup).
    destruct (Hrec Hrecording) as (r & mr & Href & Hmr & Hactive).
    rewrite dispatch_MouseUp by (by unfold voice_button_shown; rewrite ?Hst).
    pose proof (stopRecording_active E (hook_world w) r mr Href Hmr
                  ltac:(by rewrite Hactive)) as Hstop.
    destruct w as [[st sid0 t0 rsp er rc tl] b]. cbn in *.
    unfold session_for, device_info in *. cbn in *.
    unfold_handlers. cbn. unfold hook_world in Hstop. cbn in Hstop.
    rewrite Hstop. clear Hstop.
    destruct sid0 as [sid0|]; split_answers; try congruence;
      simplify_eq; cbn; rewrite <- ?app_assoc; done.
  - (* confirming, confirmation *)
    destruct Hok as (sid & t & c & r & Hsid & Ht & Hc & Hr).
    destruct (Hconf eq_refl) as [Htruthy _].
    rewrite (dispatch_confirmation E w ClickConfirm)
      by (by unfold confirmation_shown; rewrite Hst, Ht).
    destruct w as [[st sid0 t0 rsp er rc tl] b]. cbn in *. subst sid0 t0.
    unfold_handlers. cbn. rewrite Htruthy. cbn. rewrite Hc. cbn. rewrite Hr. cbn.
    by rewrite <- !app_assoc.
  - (* confirming, correction *)
    destruct Hok as (sid & t & c & r & Hsid & Ht & Hc & Hr).
    destruct (Hconf eq_refl) as [Htruthy _].
    rewrite (dispatch_confirmation E w (SubmitCorrection correctedText))
      by (by unfold confirmation_shown; rewrite Hst, Ht).
    destruct w as [[st sid0 t0 rsp er rc tl] b]. cbn in *. subst sid0 t0.
    unfold_handlers. cbn. rewrite Htruthy. cbn. rewrite Hc. cbn. rewrite Hr. cbn.
    by rewrite <- !app_assoc.
  - (* confirming, reset *)
    destruct (Hconf eq_refl) as [_ [t Ht]].
    rewrite (dispatch_confirmation E w ClickRetry)
      by (by unfold confirmation_shown; rewrite Hst, Ht).
    cbn. by rewrite app_nil_r.
  - (* playing, playback completion *)
    destruct (Hplay eq_refl) as [rsp Hrsp].
    rewrite dispatch_AudioEnded by (by unfold player_shown; rewrite Hst, Hrsp).
    cbn. by rewrite app_nil_r.
Qed.

(** *** The page stays coherent *)

Lemma start_recording_ok (E : Env) (wh : World Hook) :
  recording_ok wh → recording_ok (exec (startRecording E) wh).
Proof.
  unfold recording_ok, exec. start_cases E wh; cbn; intros H Hi.
  - exact (H Hi).
  - eexists _, _. split; [reflexivity|]. split; [apply lookup_snoc | reflexivity].
  - exact (H Hi).
Qed.

Lemma stop_recording_ok (E : Env) (wh : World Hook) :
  recording_ok wh → recording_ok (exec (stopRecording E) wh).
Proof.
  destruct wh as [[i a e m cs] b]. unfold recording_ok.
  unfold exec, stopRecording, bind, recorder_stop. cbn -[Nat.ltb].
  destruct m as [r|]; [|done]. cbn -[Nat.ltb].
  destruct (recorders b !! r) as [mr|] eqn:Hrec; [|done].
  destruct (mr_state mr); [by destruct (env_stop_inactive_throws E) | |];
    unfold ondataavailable, bind; cbn -[Nat.ltb];
    destruct (0 <? blob_size (env_final_chunk E))%nat; done.
Qed.

Lemma coherent_fresh : coherent fresh_home.
Proof. by constructor. Qed.

Lemma coherent_handlePressStart (E : Env) (w : World Home) :
  coherent w → coherent (exec (handlePressStart E) w).
Proof.
  intros [Hrec _ _]. unfold exec. rewrite handlePressStart_spec. cbn.
  constructor; cbn; [|done|done].
  apply (start_recording_ok E) in Hrec. unfold hook_world in *. cbn.
  by destruct (exec (startRecording E) _).
Qed.

Lemma coherent_handlePressEnd (E : Env) (w : World Home) :
  coherent w → coherent (exec (handlePressEnd E) w).
Proof.
  intros [Hrec _ _]. apply (stop_recording_ok E) in Hrec.
  destruct w as [[st sid t rsp er rc tl] b]. unfold hook_world in Hrec. cbn in Hrec.
  unfold_handlers. cbn in *.
  destruct (stopRecording E (mkWorld rc b)) as [[blob|e|] [rc' b']]; cbn in *;
    try (by constructor).
  destruct sid as [sid|]; split_answers; constructor; cbn; try done;
    intros _; split; eauto.
Qed.

Lemma coherent_handleConfirm (E : Env) (w : World Home) :
  coherent w → coherent (exec (handleConfirm E) w).
Proof.
  intros [Hrec Hconf Hplay]. destruct w as [[st sid t rsp er rc tl] b].
  unfold_handlers. cbn in *.
  destruct sid as [sid|]; [|by constructor]. destruct t as [t|]; [|by constructor].
  split_answers; constructor; cbn; try done; eauto;
    intros Hst; by destruct (Hconf Hst).
Qed.

Lemma coherent_handleCorrect (E : Env) (text : string) (w : World Home) :
  coherent w → coherent (exec (handleCorrect E text) w).
Proof.
  intros [Hrec Hconf Hplay]. destruct w as [[st sid t rsp er rc tl] b].
  unfold_handlers. cbn in *.
  destruct sid as [sid|]; [|by constructor]. destruct t as [t|]; [|by constructor].
  split_answers; constructor; cbn; try done; eauto;
    intros Hst; by destruct (Hconf Hst).
Qed.

(** Coherence is an invariant of the page: it holds when the page is mounted
    and every user action, whatever the environment answers, preserves it. *)
Lemma coherent_dispatch (E : Env) (ev : UiEvent) (w : World Home) :
  coherent w → coherent (exec (dispatch E ev) w).
Proof.
  intros Hw. unfold exec, dispatch, bind. cbn.
  destruct ev;
    match goal with
    | |- context [if ?c then _ else _] => destruct c
    end; try exact Hw.
  - by apply coherent_handlePressStart.
  - by apply coherent_handlePressEnd.
  - by apply coherent_handleConfirm.
  - by apply coherent_handleCorrect.
  - destruct Hw as [Hrec _ _]. by constructor.
  - destruct Hw as [Hrec _ _]. by constructor.
Qed.

Lemma coherent_play (script : list (Env * UiEvent)) (w : World Home) :
  coherent w → coherent (play script w).
Proof.
  unfold play. revert w. induction script as [|[E ev] script IH]; intros w Hw; [done|].
  cbn. apply IH. by apply coherent_dispatch.
Qed.

(** Every page reached from the mounted one by user actions is coherent. *)
Corollary reachable_coherent (script : list (Env * UiEvent)) :
  coherent (play script fresh_home).
Proof. apply coherent_play, coherent_fresh. Qed.

(** One whole turn, nothing failing: the page walks the cycle once and
    sends, in this order, a session creation, the upload, the
    confirmation and the request for a reply. *)
Example happy_turn :
  let w := play [(happy_env, MouseDown); (happy_env, MouseUp);
                 (happy_env, ClickConfirm); (happy_env, AudioEnded)] fresh_home in
  trail (view w) = [recording; processing; confirming; responding; playing; idle]
  ∧ map req_url (sent (browser w)) =
      ["/api/voice/session"; "/api/voice/upload/session-1";
       "/api/voice/confirm/session-1"; "/api/voice/respond/session-1"]
  ∧ error (view w) = None.
Proof. repeat split. Qed.

Lemma voice_flow_success_transitions_witness :
  let w := play [(happy_env, MouseDown)] fresh_home in
  let w' := exec (dispatch happy_env MouseUp) w in
  trail (view w') = [recording; processing; confirming]
  ∧ state (view w') = confirming
  ∧ length (sent (browser w')) = 2.
Proof.
  cbv zeta. set (w := play [(happy_env, MouseDown)] fresh_home).
  assert (Hw : coherent w) by (apply coherent_play, coherent_fresh).
  assert (Hok : succeeds happy_env w MouseUp).
  { split; [reflexivity|]. by exists "session-1", sample_transcript. }
  destruct (voice_flow_success_transitions happy_env w MouseUp
              [processing; confirming] Hw eq_refl Hok) as (_ & Htrail & Hlast & Hsent).
  split; [exact Htrail|]. split; [reflexivity|]. rewrite Hsent. reflexivity.
Defined.

(** ** The back-office pages *)

(** C8, as the code has it.  When the request of an admin data-loading or
    mutation operation is rejected, the operation itself resolves, writes one
    line to the developer console (its label and the error) and leaves every
    piece of held backend data as it was, stale or empty.  The list pages
    (users, terms, conversations) then show no error; the analytics page and
    the conversation page, which hold a single object, show a line of red
    text exactly when a failed load leaves that object null. *)
Theorem admin_failure_is_logged (Adm : AdminEnv) (op : AdminOp) (w : World Admin)
    (err : JsError) :
  op_failure Adm op (view w) = Some err →
  let w' := exec (run_op Adm op) w in
  result (run_op Adm op) w = Val tt
  ∧ console (browser w') = console (browser w) ++ [(op_label op, err)]
  ∧ held_data (view w') = held_data (view w)
  ∧ (shows_error (op_screen op (view w')) = true ↔
     (op = OpLoadAnalytics ∧ data (analyticsPage (view w)) = None)
     ∨ (op = OpLoadConversation ∧ conversation (detailPage (view w)) = None)).
Proof.
  destruct w as [[[us ul ue uf] [ts tl tf ta tn] [ad al] [cs cu cl cf] [di dc dl]] b].
  unfold op_failure, failure_of. cbv zeta.
  destruct op; cbn -[promise_all2];
    match goal with
    | |- match ?x with inl _ => _ | inr _ => _ end = _ → _ =>
        destruct x eqn:Hanswer; [|discriminate]
    end;
    intros [= ->];
    unfold exec, result, run_op, in_users, in_terms, in_analytics, in_conversations,
      in_detail, zoom, loadUsers, saveEdit, loadTerms, handleApprove, handleReject,
      handleAddTerm, loadAnalytics, loadData, applyFilter, loadConversation,
      try_finally, try_catch, fire_and_forget, bind, call; cbn -[promise_all2];
    rewrite ?Hanswer; cbn -[promise_all2];
    repeat match goal with
           | |- context [match ?x with inl _ => _ | inr _ => _ end] =>
               destruct x; cbn in Hanswer; simplify_eq; cbn -[promise_all2]
           end;
    (split; [reflexivity|]); (split; [reflexivity|]); (split; [reflexivity|]);
    unfold users_screen, terms_screen, conversations_screen; cbn.
  all: try (split; [discriminate | intros [[? _]|[? _]]; discriminate]).
  all: try (destruct ul; cbn;
            (split; [discriminate | intros [[? _]|[? _]]; discriminate])).
  all: try (destruct tl; cbn;
            (split; [discriminate | intros [[? _]|[? _]]; discriminate])).
  - destruct ad; cbn; split.
    + discriminate.
    + intros [[_ ?]|[? _]]; discriminate.
    + by left.
    + done.
  - destruct dc; cbn; split.
    + discriminate.
    + intros [[? _]|[_ ?]]; discriminate.
    + by right.
    + done.
Qed.

Lemma admin_failure_is_logged_witness :
  let w' := exec (run_op failing_admin OpLoadUsers) fresh_admin in
  console (browser w') = [("Failed to load users:", network_error)]
  ∧ users (usersPage (view w')) = []
  ∧ op_screen OpLoadUsers (view w') = Table 0.
Proof.
  destruct (admin_failure_is_logged failing_admin OpLoadUsers fresh_admin network_error
              eq_refl) as (_ & Hconsole & _ & _).
  split; [exact Hconsole|]. split; reflexivity.
Defined.

(** C8, the claim refuted.  A failed first load of the analytics page is not
    silent for the user: once loading ends the page shows an error line in
    red.  The conversation page does the same with its own line. *)
Lemma failed_analytics_load_shows_error :
  op_screen OpLoadAnalytics (view (exec (run_op failing_admin OpLoadAnalytics) fresh_admin))
    = RedText "Ошибка загрузки данных"
  ∧ op_screen OpLoadConversation
      (view (exec (run_op failing_admin OpLoadConversation) fresh_admin))
    = RedText "Диалог не найден".
Proof. split; reflexivity. Qed.

(** * Further properties *)

(** ** The request interceptor, on any configuration *)

(** X1. The interceptor touches nothing but the [Authorization] header:
    method, URL, query parameters, body and every other header of the
    configuration it is given come out as they went in. *)
Theorem interceptor_touches_only_authorization (storage : gmap string string)
    (cfg : Request) :
  req_method (request_interceptor storage cfg) = req_method cfg
  ∧ req_url (request_interceptor storage cfg) = req_url cfg
  ∧ req_params (request_interceptor storage cfg) = req_params cfg
  ∧ req_body (request_interceptor storage cfg) = req_body cfg
  ∧ ∀ header, header ≠ "Authorization" →
      req_headers (request_interceptor storage cfg) !! header = req_headers cfg !! header.
Proof.
  unfold request_interceptor.
  destruct (storage !! "token") as [t|]; [|done].
  destruct (truthy (Some t)); [|done]. cbn.
  repeat split. intros header Hne. by rewrite lookup_insert_ne.
Qed.

Lemma interceptor_touches_only_authorization_witness :
  let cfg := config_of (UploadAudio "s-1" (new_Blob [] "audio/wav")) in
  req_headers (request_interceptor {[ "token" := "abc" ]} cfg) !! "Content-Type"
  = Some "multipart/form-data".
Proof.
  intros cfg.
  destruct (interceptor_touches_only_authorization {[ "token" := "abc" ]} cfg)
    as (_ & _ & _ & _ & H).
  rewrite (H "Content-Type"); [reflexivity | discriminate].
Defined.

(** X2. With a token stored the interceptor replaces whatever
    [Authorization] the configuration already had; with none (or an empty
    one) it hands the configuration back unchanged, an [Authorization]
    header already there included; and running it twice is running it once. *)
Theorem interceptor_overrides_and_is_idempotent (storage : gmap string string)
    (cfg : Request) :
  (∀ t, storage !! "token" = Some t → t ≠ "" →
        authorization (request_interceptor storage cfg) = Some ("Bearer " +:+ t))
  ∧ (truthy (storage !! "token") = false → request_interceptor storage cfg = cfg)
  ∧ request_interceptor storage (request_interceptor storage cfg)
    = request_interceptor storage cfg.
Proof.
  unfold request_interceptor, authorization.
  destruct (storage !! "token") as [t|] eqn:Htoken.
  - destruct (truthy (Some t)) eqn:Ht; cbn.
    + split; [|split; [done|]].
      * intros t' [= <-] _. apply lookup_insert_eq.
      * by rewrite insert_insert_eq.
    + split; [|done]. intros t' [= <-] Hne. by rewrite truthy_non_empty in Ht.
  - by split.
Qed.

Lemma interceptor_overrides_and_is_idempotent_witness :
  let cfg := mkRequest "GET" "/x" {[ "Authorization" := "Basic old" ]} [] NoBody in
  authorization (request_interceptor {[ "token" := "abc" ]} cfg) = Some "Bearer abc"
  ∧ authorization (request_interceptor ∅ cfg) = Some "Basic old".
Proof.
  intros cfg.
  destruct (interceptor_overrides_and_is_idempotent {[ "token" := "abc" ]} cfg)
    as (H1 & _ & _).
  destruct (interceptor_overrides_and_is_idempotent ∅ cfg) as (_ & H2 & _).
  split.
  - apply (H1 "abc"); [reflexivity | discriminate].
  - rewrite H2; reflexivity.
Defined.

(** The URL and the method of a request are those of the call. *)
Lemma request_of_url (storage : gmap string string) (e : Endpoint) :
  req_url (request_of storage e) = req_url (config_of e).
Proof.
  unfold request_of, request_interceptor.
  destruct (storage !! "token") as [t|]; [|done]. by destruct (truthy (Some t)).
Qed.

Lemma request_of_method (storage : gmap string string) (e : Endpoint) :
  req_method (request_of storage e) = req_method (config_of e).
Proof.
  unfold request_of, request_interceptor.
  destruct (storage !! "token") as [t|]; [|done]. by destruct (truthy (Some t)).
Qed.

(** ** The login page *)

Lemma getMe_header_after_setItem (storage : gmap string string) (token : string) :
  authorization (request_of (<["token" := token]> storage) GetMe) =
    if truthy (Some token) then Some ("Bearer " +:+ token) else None.
Proof.
  unfold request_of.
  rewrite request_interceptor_authorization by apply config_of_no_authorization.
  by rewrite lookup_insert_eq.
Qed.

Ltac unfold_login :=
  unfold handleSubmit, checkAuth, authApi_login, authApi_getMe, try_finally, try_catch,
    bind, call, localStorage_setItem, exec, result, new_requests in *.

(** X3. A login the backend accepts stores the token it was given, whatever
    was stored before, and the question "who am I" that follows already
    carries that token.  When the backend answers it, the page navigates to
    [/admin] for the role [admin] and to [/] for any other role, shows no
    error and is no longer loading. *)
Theorem login_success_stores_and_uses_token (Au : AuthEnv) (w : World LoginPage)
    (token : string) (me : Me) :
  auth_login Au (email (view w)) (password (view w)) = inr token →
  token ≠ "" →
  auth_getMe Au (Some ("Bearer " +:+ token)) = inr me →
  let w' := exec (handleSubmit Au) w in
  localStorage (browser w') !! "token" = Some token
  ∧ map req_url (new_requests w w') = ["/api/auth/login"; "/api/auth/me"]
  ∧ authorization <$> last (sent (browser w')) = Some (Some ("Bearer " +:+ token))
  ∧ login_pushed (view w') =
      login_pushed (view w) ++ [if String.eqb (me_role me) "admin" then "/admin" else "/"]
  ∧ login_error (view w') = ""
  ∧ login_loading (view w') = false.
Proof.
  intros Hlogin Htoken Hme. destruct w as [[em pw er ld ps] b]. cbn in Hlogin.
  unfold_login. cbn. rewrite Hlogin. cbn.
  rewrite getMe_header_after_setItem, truthy_non_empty by done. rewrite Hme. cbn.
  destruct (String.eqb (me_role me) "admin"); cbn;
    rewrite last_snoc, <- app_assoc, drop_app_length; cbn;
    (split; [apply lookup_insert_eq|]); (split; [by rewrite !request_of_url|]);
    (split; [by rewrite getMe_header_after_setItem, truthy_non_empty|]); done.
Qed.

Lemma login_success_stores_and_uses_token_witness :
  let w' := exec (handleSubmit (sample_auth "admin")) (login_form "a@b.kz" "secret") in
  localStorage (browser w') !! "token" = Some "token-1"
  ∧ login_pushed (view w') = ["/admin"].
Proof.
  destruct (login_success_stores_and_uses_token (sample_auth "admin")
              (login_form "a@b.kz" "secret") "token-1" (sample_me "admin")
              eq_refl ltac:(discriminate) eq_refl)
    as (Hstored & _ & _ & Hpushed & _).
  split; [exact Hstored | exact Hpushed].
Defined.

(** X4. A login the backend accepts but whose follow-up question fails
    leaves the new token in local storage all the same; the page does not
    navigate, ends loading, and shows the message about a wrong email or
    password. *)
Theorem login_keeps_token_when_getMe_fails (Au : AuthEnv) (w : World LoginPage)
    (token : string) (err : JsError) :
  auth_login Au (email (view w)) (password (view w)) = inr token →
  auth_getMe Au (authorization (request_of (<["token" := token]> (localStorage (browser w)))
                                           GetMe)) = inl err →
  let w' := exec (handleSubmit Au) w in
  localStorage (browser w') !! "token" = Some token
  ∧ login_pushed (view w') = login_pushed (view w)
  ∧ login_error (view w') = "Неверный email или пароль"
  ∧ login_loading (view w') = false.
Proof.
  intros Hlogin Hme. destruct w as [[em pw er ld ps] b]. cbn in Hlogin, Hme.
  unfold_login. cbn. rewrite Hlogin. cbn. rewrite Hme. cbn.
  split; [apply lookup_insert_eq | done].
Qed.

Lemma login_keeps_token_when_getMe_fails_witness :
  let w' := exec (handleSubmit forgetful_auth) (login_form "a@b.kz" "pw") in
  localStorage (browser w') !! "token" = Some "token-2"
  ∧ login_pushed (view w') = []
  ∧ login_error (view w') = "Неверный email или пароль".
Proof.
  destruct (login_keeps_token_when_getMe_fails forgetful_auth (login_form "a@b.kz" "pw")
              "token-2" network_error eq_refl eq_refl) as (H1 & H2 & H3 & _).
  repeat split; assumption.
Defined.

(** X5. A login the backend rejects changes nothing in local storage (a
    token stored earlier stays, and was sent along with the login request),
    sends no second request, does not navigate, ends loading and shows the
    error message. *)
Theorem login_failure_leaves_storage (Au : AuthEnv) (w : World LoginPage)
    (err : JsError) :
  auth_login Au (email (view w)) (password (view w)) = inl err →
  let w' := exec (handleSubmit Au) w in
  localStorage (browser w') = localStorage (browser w)
  ∧ new_requests w w' =
      [request_of (localStorage (browser w)) (Login (email (view w)) (password (view w)))]
  ∧ login_pushed (view w') = login_pushed (view w)
  ∧ login_error (view w') = "Неверный email или пароль"
  ∧ login_loading (view w') = false.
Proof.
  intros Hlogin. destruct w as [[em pw er ld ps] b]. cbn in Hlogin.
  unfold_login. cbn. rewrite Hlogin. cbn. by rewrite drop_app_length.
Qed.

Lemma login_failure_leaves_storage_witness :
  let w' := exec (handleSubmit (sample_auth "admin")) (login_form "a@b.kz" "wrong") in
  localStorage (browser w') !! "token" = Some "stale"
  ∧ map authorization (sent (browser w')) = [Some "Bearer stale"].
Proof.
  destruct (login_failure_leaves_storage (sample_auth "admin")
              (login_form "a@b.kz" "wrong") network_error eq_refl) as (H1 & _).
  split; [rewrite H1; reflexivity | reflexivity].
Defined.

(** ** The admin layout *)

(** X6. The check of the admin layout always ends loading and never writes
    to the console.  It keeps the user, without navigating, exactly when the
    backend answers with the role [admin]; any other role is sent to [/] and
    a failed request to [/login], the user being left unset in both cases. *)
Theorem checkAuth_outcomes (Au : AuthEnv) (w : World AdminLayout) :
  let answer := auth_getMe Au (authorization (request_of (localStorage (browser w)) GetMe)) in
  let w' := exec (checkAuth Au) w in
  layout_loading (view w') = false
  ∧ console (browser w') = console (browser w)
  ∧ match answer with
    | inr me =>
        if String.eqb (me_role me) "admin"
        then layout_user (view w') = Some me
             ∧ layout_pushed (view w') = layout_pushed (view w)
        else layout_user (view w') = layout_user (view w)
             ∧ layout_pushed (view w') = layout_pushed (view w) ++ ["/"]
    | inl _ =>
        layout_user (view w') = layout_user (view w)
        ∧ layout_pushed (view w') = layout_pushed (view w) ++ ["/login"]
    end.
Proof.
  destruct w as [[ld us ps] b]. cbv zeta. unfold_login. cbn.
  destruct (auth_getMe Au _) as [err|me]; cbn; [done|].
  by destruct (String.eqb (me_role me) "admin").
Qed.

(** X7. The login page and the admin layout agree: when a login has sent the
    user to [/admin], the layout mounted next in the same browser, asking the
    same backend, keeps the user there and sets the user it was told. *)
Theorem admin_login_passes_layout_check (Au : AuthEnv) (w : World LoginPage) :
  let w' := exec (handleSubmit Au) w in
  login_pushed (view w') = login_pushed (view w) ++ ["/admin"] →
  let wl := exec (checkAuth Au) (fresh_layout (browser w')) in
  layout_pushed (view wl) = []
  ∧ ∃ me, layout_user (view wl) = Some me ∧ me_role me = "admin".
Proof.
  destruct w as [[em pw er ld ps] b]. cbv zeta. unfold fresh_layout.
  unfold_login. cbn.
  destruct (auth_login Au em pw) as [err|token]; cbn.
  { intros H. apply (f_equal length) in H. rewrite length_app in H. cbn in H. lia. }
  destruct (auth_getMe Au _) as [err|me] eqn:Hme; cbn.
  { intros H. apply (f_equal length) in H. rewrite length_app in H. cbn in H. lia. }
  destruct (String.eqb (me_role me) "admin") eqn:Hrole; cbn.
  - intros _. rewrite Hme. cbn. rewrite Hrole. cbn.
    split; [done|]. exists me. split; [done|]. by apply String.eqb_eq.
  - intros H. apply app_inv_head in H. discriminate.
Qed.

Lemma admin_login_passes_layout_check_witness :
  let w' := exec (handleSubmit (sample_auth "admin")) (login_form "a@b.kz" "secret") in
  let wl := exec (checkAuth (sample_auth "admin")) (fresh_layout (browser w')) in
  layout_pushed (view wl) = [] ∧ layout_user (view wl) = Some (sample_me "admin").
Proof.
  destruct (admin_login_passes_layout_check (sample_auth "admin")
              (login_form "a@b.kz" "secret") eq_refl) as (H1 & _).
  split; [exact H1 | reflexivity].
Defined.

(** ** The audio-capture hook, over any sequence of its operations *)

Lemma stop_rejects_on_null_reference (E : Env) (w : World Hook) :
  mediaRecorderRef (view w) = None →
  stopRecording E w = (Exn (Error "No active recording"), w).
Proof. intros Href. unfold stopRecording, bind. cbn. by rewrite Href. Qed.

(** A stop either changes nothing at all (it rejects or never settles) or
    finds an active recorder and goes through. *)
Lemma stopRecording_cases (E : Env) (w : World Hook) :
  (exec (stopRecording E) w = w ∧ ∀ payload, result (stopRecording E) w ≠ Val payload)
  ∨ ∃ r mr, mediaRecorderRef (view w) = Some r
            ∧ recorders (browser w) !! r = Some mr
            ∧ mr_state mr ≠ rs_inactive.
Proof.
  destruct (mediaRecorderRef (view w)) as [r|] eqn:Href.
  - destruct (recorders (browser w) !! r) as [mr|] eqn:Hrec.
    + destruct (mr_state mr) eqn:Hstate.
      * left. destruct w as [[i a e m cs] b]. cbn in Href, Hrec. subst m.
        unfold exec, result, stopRecording, bind, recorder_stop. cbn.
        rewrite Hrec. cbn. rewrite Hstate.
        by destruct (env_stop_inactive_throws E).
      * right. exists r, mr. by rewrite Hstate.
      * right. exists r, mr. by rewrite Hstate.
    + left. destruct w as [[i a e m cs] b]. cbn in Href, Hrec. subst m.
      unfold exec, result, stopRecording, bind, recorder_stop. cbn. by rewrite Hrec.
  - left. unfold exec, result. by rewrite stop_rejects_on_null_reference.
Qed.

Lemma hook_inv_fresh : hook_inv fresh_hook.
Proof. by constructor. Qed.

Lemma hook_inv_step (op : HookOp) (w : World Hook) :
  hook_inv w → hook_inv (hook_step op w).
Proof.
  intros [Hrec Hidle]. destruct op as [E|chunk|E]; cbn.
  - constructor; [by apply start_recording_ok|].
    unfold exec. start_cases E w; cbn; try done.
  - rewrite ondataavailable_spec. by constructor.
  - destruct (stopRecording_cases E w) as [[-> _]|(r & mr & Href & Hmr & Hactive)];
      [by constructor|].
    unfold exec. rewrite (stopRecording_active E w r mr Href Hmr Hactive). cbn.
    constructor; [done|]. cbn. intros _ r' [= <-].
    eexists. rewrite list_lookup_insert_eq by (by apply lookup_lt_Some in Hmr). done.
Qed.

Lemma hook_inv_run (ops : list HookOp) (w : World Hook) :
  hook_inv w → hook_inv (hook_run ops w).
Proof.
  unfold hook_run. revert w. induction ops as [|op ops IH]; intros w Hw; [done|].
  cbn. apply IH. by apply hook_inv_step.
Qed.

(** X8. While the flag of the hook agrees with the recorder it refers to
    ([isRecording] true: that recorder is recording; false: it is inactive,
    if there is one), a stop resolves with a payload exactly when
    [isRecording] is true, and then clears the flag; when it is false the
    stop rejects or never settles, and changes nothing.  The agreement holds
    of a fresh hook and is kept by a start, by a chunk and by a stop, each
    run to completion with nothing else happening meanwhile. *)
Theorem stop_resolves_iff_recording (E : Env) (w : World Hook) :
  hook_inv w →
  (isRecording (view w) = true →
   result (stopRecording E) w = Val (captured E (view w))
   ∧ isRecording (view (exec (stopRecording E) w)) = false)
  ∧ (isRecording (view w) = false →
     (∀ payload, result (stopRecording E) w ≠ Val payload)
     ∧ exec (stopRecording E) w = w)
  ∧ hook_inv fresh_hook
  ∧ ∀ op, hook_inv (hook_step op w).
Proof.
  intros Hw. pose proof Hw as [Hrec Hidle]. split; [|split; [|split]].
  - intros Hi. destruct (Hrec Hi) as (r & mr & Href & Hmr & Hstate).
    unfold result, exec.
    by rewrite (stopRecording_active E w r mr Href Hmr ltac:(by rewrite Hstate)).
  - intros Hi.
    destruct (stopRecording_cases E w) as [[Hsame Hno]|(r & mr & Href & Hmr & Hactive)];
      [done|].
    destruct (Hidle Hi r Href) as (mr' & Hmr' & Hinactive). congruence.
  - apply hook_inv_fresh.
  - intros op. by apply hook_inv_step.
Qed.

Lemma stop_resolves_iff_recording_witness :
  let w := hook_run [HStart happy_env; HData (mkBlob [1]%Z opus)] fresh_hook in
  result (stopRecording happy_env) w = Val (mkBlob [1; 3; 4]%Z "audio/webm").
Proof.
  intros w.
  assert (Hw : hook_inv w) by apply hook_inv_run, hook_inv_fresh.
  destruct (stop_resolves_iff_recording happy_env w Hw) as [H1 _].
  apply H1. reflexivity.
Defined.

Lemma recorders_ok_fresh : recorders_ok (browser fresh_hook).
Proof. intros r mr H. by destruct r. Qed.

(** A stream the reference does not lead to is out of reach of the hook:
    no later operation stops its tracks. *)
Lemma out_of_reach_step (i : nat) (tracks : list ReadyState) (op : HookOp)
    (w : World Hook) :
  streams (browser w) !! i = Some tracks →
  unreachable_stream i w →
  recorders_ok (browser w) →
  streams (browser (hook_step op w)) !! i = Some tracks
  ∧ unreachable_stream i (hook_step op w)
  ∧ recorders_ok (browser (hook_step op w)).
Proof.
  intros Hi Hun Hok. pose proof (lookup_lt_Some _ _ _ Hi) as Hlt.
  unfold unreachable_stream, recorders_ok in *.
  destruct op as [E|chunk|E]; cbn.
  - unfold exec. start_cases E w; cbn.
    + done.
    + split; [by apply lookup_app_l_Some|]. split.
      * intros r mr [= <-]. rewrite lookup_snoc. intros [= <-]. cbn. lia.
      * intros r mr Hr. rewrite length_app. cbn.
        apply lookup_app_Some in Hr as [Hr|[_ Hr]].
        -- destruct (Hok r mr Hr). split; [lia|done].
        -- apply list_lookup_singleton_Some in Hr as [_ <-]. cbn. split; [lia|done].
    + split; [by apply lookup_app_l_Some|]. split; [done|].
      intros r mr Hr. rewrite length_app. destruct (Hok r mr Hr). split; [lia|done].
  - by rewrite ondataavailable_spec.
  - destruct (stopRecording_cases E w) as [[-> _]|(r & mr & Href & Hmr & Hactive)];
      [done|].
    unfold exec. rewrite (stopRecording_active E w r mr Href Hmr Hactive). cbn.
    pose proof (Hun r mr Href Hmr) as Hne.
    split; [by rewrite list_lookup_alter_ne|]. split.
    + intros r' mr' [= <-].
      rewrite list_lookup_insert_eq by (by apply lookup_lt_Some in Hmr).
      by intros [= <-].
    + intros r' mr'. rewrite length_alter.
      destruct (decide (r = r')) as [<-|Hr].
      * rewrite list_lookup_insert_eq by (by apply lookup_lt_Some in Hmr).
        intros [= <-]. cbn. destruct (Hok r mr Hmr). split; [done|discriminate].
      * rewrite list_lookup_insert_ne by done. apply Hok.
Qed.

Lemma out_of_reach_run (i : nat) (tracks : list ReadyState) (ops : list HookOp)
    (w : World Hook) :
  streams (browser w) !! i = Some tracks →
  unreachable_stream i w →
  recorders_ok (browser w) →
  streams (browser (hook_run ops w)) !! i = Some tracks.
Proof.
  unfold hook_run. revert w. induction ops as [|op ops IH]; intros w Hi Hun Hok; [done|].
  cbn. destruct (out_of_reach_step i tracks op w Hi Hun Hok) as (? & ? & ?).
  by apply IH.
Qed.

Lemma recorders_ok_run (ops : list HookOp) : recorders_ok (browser (hook_run ops fresh_hook)).
Proof.
  assert (H : ∀ w, recorders_ok (browser w) → recorders_ok (browser (hook_run ops w))).
  { unfold hook_run. induction ops as [|op ops IH]; intros w Hw; [done|]. cbn. apply IH.
    unfold recorders_ok in *.
    destruct op as [E|chunk|E]; cbn.
    - unfold exec. start_cases E w; cbn; [done| |].
      + intros r mr Hr. rewrite length_app. cbn.
        apply lookup_app_Some in Hr as [Hr|[_ Hr]].
        * destruct (Hw r mr Hr). split; [lia|done].
        * apply list_lookup_singleton_Some in Hr as [_ <-]. cbn. split; [lia|done].
      + intros r mr Hr. rewrite length_app. destruct (Hw r mr Hr). split; [lia|done].
    - by rewrite ondataavailable_spec.
    - destruct (stopRecording_cases E w) as [[-> _]|(r & mr & Href & Hmr & Hactive)];
        [done|].
      unfold exec. rewrite (stopRecording_active E w r mr Href Hmr Hactive). cbn.
      intros r' mr'. rewrite length_alter.
      destruct (decide (r = r')) as [<-|Hr].
      + rewrite list_lookup_insert_eq by (by apply lookup_lt_Some in Hmr).
        intros [= <-]. cbn. destruct (Hw r mr Hmr). split; [done|discriminate].
      + rewrite list_lookup_insert_ne by done. apply Hw. }
  apply H, recorders_ok_fresh.
Qed.

(** X9. A second start while the first capture is still running leaks the
    first stream for good: after the two starts, no sequence of starts,
    chunks and stops ever ends its tracks, the stop that follows included. *)
Theorem second_start_leaks_first_stream (ops before : list HookOp) (E1 E2 : Env)
    (n1 n2 : nat) :
  env_getUserMedia E1 audio_constraints = inr n1 → env_isTypeSupported E1 opus = true →
  env_getUserMedia E2 audio_constraints = inr n2 → env_isTypeSupported E2 opus = true →
  let w := hook_run before fresh_hook in
  let w2 := exec (startRecording E2) (exec (startRecording E1) w) in
  streams (browser (hook_run ops w2)) !! length (streams (browser w))
    = Some (replicate n1 live).
Proof.
  intros Hm1 Hs1 Hm2 Hs2. cbv zeta.
  pose proof (recorders_ok_run (before ++ [HStart E1; HStart E2])) as Hok.
  unfold hook_run in Hok. rewrite foldl_app in Hok. cbn in Hok.
  fold (hook_run before fresh_hook) in Hok.
  set (w := hook_run before fresh_hook) in *.
  apply out_of_reach_run; [| |exact Hok]; unfold exec;
    rewrite (startRecording_granted E1 w n1 Hm1 Hs1);
    rewrite (startRecording_granted E2 _ n2 Hm2 Hs2); cbn.
  - apply lookup_app_l_Some, lookup_snoc.
  - intros r mr [= <-]. rewrite length_app. cbn.
    replace (length (recorders (browser w)) + 1)%nat
      with (length (recorders (browser w) ++
                    [mkMediaRecorder (length (streams (browser w))) opus rs_recording
                                     (Some 100%Z)])) by (rewrite length_app; cbn; lia).
    rewrite lookup_snoc. intros [= <-]. cbn. rewrite length_app. cbn. lia.
Qed.

Lemma second_start_leaks_first_stream_witness :
  streams (browser (hook_run [HStop happy_env; HStart happy_env; HStop happy_env]
                             (exec (startRecording happy_env)
                                   (exec (startRecording happy_env) fresh_hook))))
    !! 0%nat = Some [live].
Proof.
  apply (second_start_leaks_first_stream
           [HStop happy_env; HStart happy_env; HStop happy_env] [] happy_env happy_env 1 1);
    reflexivity.
Defined.

(** X10. A start whose recorder cannot be built (the MIME type is refused)
    has already been granted the microphone: it reports a failure but leaves
    that stream open, out of reach of the hook, whose later operations never
    end its tracks. *)
Theorem unsupported_start_leaks_stream (ops before : list HookOp) (E : Env) (n : nat) :
  env_getUserMedia E audio_constraints = inr n →
  env_isTypeSupported E opus = false →
  let w := hook_run before fresh_hook in
  let w1 := exec (startRecording E) w in
  hook_error (view w1) = Some "Не удалось получить доступ к микрофону"
  ∧ mediaRecorderRef (view w1) = mediaRecorderRef (view w)
  ∧ streams (browser (hook_run ops w1)) !! length (streams (browser w))
    = Some (replicate n live).
Proof.
  intros Hmic Hmime. cbv zeta.
  pose proof (recorders_ok_run (before ++ [HStart E])) as Hok.
  unfold hook_run in Hok. rewrite foldl_app in Hok. cbn in Hok.
  fold (hook_run before fresh_hook) in Hok.
  pose proof (recorders_ok_run before) as Hok0.
  set (w := hook_run before fresh_hook) in *.
  split; [|split].
  - unfold exec. by rewrite (startRecording_unsupported E w n Hmic Hmime).
  - unfold exec. by rewrite (startRecording_unsupported E w n Hmic Hmime).
  - apply out_of_reach_run; [| |exact Hok]; unfold exec;
      rewrite (startRecording_unsupported E w n Hmic Hmime); cbn.
    + apply lookup_snoc.
    + intros r mr _ Hr. destruct (Hok0 r mr Hr). lia.
Qed.

Lemma unsupported_start_leaks_stream_witness :
  let w1 := exec (startRecording no_codec_env) fresh_hook in
  mediaRecorderRef (view w1) = None
  ∧ streams (browser (hook_run [HStop happy_env; HStart happy_env; HStop happy_env] w1))
      !! 0%nat = Some [live; live].
Proof.
  destruct (unsupported_start_leaks_stream
              [HStop happy_env; HStart happy_env; HStop happy_env] [] no_codec_env 2
              eq_refl eq_refl) as (_ & H2 & H3).
  split; [exact H2 | exact H3].
Defined.

(** X11. A start that is refused the microphone while a capture is running
    does not stop that capture but has already emptied the chunk buffer:
    the recorder goes on, [isRecording] stays as it was, and the payload of
    the stop that follows holds only what was delivered after the refused
    start; the chunks buffered before it are lost. *)
Theorem refused_restart_drops_buffered_chunks (E E' : Env) (w : World Hook)
    (err : JsError) (r : nat) (mr : MediaRecorder) (later : list Blob) :
  env_getUserMedia E audio_constraints = inl err →
  mediaRecorderRef (view w) = Some r →
  recorders (browser w) !! r = Some mr →
  mr_state mr ≠ rs_inactive →
  let w1 := exec (startRecording E) w in
  chunksRef (view w1) = []
  ∧ isRecording (view w1) = isRecording (view w)
  ∧ recorders (browser w1) !! r = Some mr
  ∧ result (stopRecording E') (deliver later w1)
    = Val (new_Blob (filter non_empty (later ++ [env_final_chunk E'])) "audio/webm").
Proof.
  intros Hmic Href Hmr Hactive. cbv zeta. unfold exec.
  rewrite (startRecording_refused E w err Hmic). cbn.
  split; [done|]. split; [done|]. split; [done|].
  rewrite deliver_spec. cbn. unfold result.
  erewrite stopRecording_active; [|exact Href|exact Hmr|exact Hactive]. cbn.
  unfold captured. rewrite keep_non_empty. cbn [view chunksRef app].
  by rewrite filter_app.
Qed.

Lemma refused_restart_drops_buffered_chunks_witness :
  let w := deliver [mkBlob [1; 2]%Z opus] (exec (startRecording happy_env) fresh_hook) in
  let w1 := exec (startRecording deaf_env) w in
  chunksRef (view w) = [mkBlob [1; 2]%Z opus]
  ∧ result (stopRecording happy_env) (deliver [mkBlob [9]%Z opus] w1)
    = Val (mkBlob [9; 3; 4]%Z "audio/webm").
Proof.
  intros w w1.
  destruct (refused_restart_drops_buffered_chunks deaf_env happy_env w
              (DOMException "NotAllowedError") 0
              (mkMediaRecorder 0 opus rs_recording (Some 100%Z)) [mkBlob [9]%Z opus]
              eq_refl eq_refl eq_refl ltac:(discriminate)) as (_ & _ & _ & H).
  split; [reflexivity | exact H].
Defined.

(** ** The voice-flow page, over any sequence of user actions *)

Lemma follows_app (s : AppState) (l1 l2 : list AppState) :
  follows s (l1 ++ l2) = follows s l1 && follows (default s (last l1)) l2.
Proof.
  revert s. induction l1 as [|x l1 IH]; intros s; [done|].
  cbn [app follows]. rewrite IH, andb_assoc. f_equal.
  rewrite last_cons. by destruct (last l1).
Qed.

Lemma steady_fresh : steady fresh_home.
Proof. constructor; try done; apply coherent_fresh. Qed.

(** Builds [steady] for the page an action leads to. *)
Lemma steady_intro (E : Env) (ev : UiEvent) (w : World Home) :
  coherent w →
  let w' := exec (dispatch E ev) w in
  settled (state (view w')) = true →
  (isRecording (recorder (view w')) = true → state (view w') = recording) →
  default idle (last (trail (view w'))) = state (view w') →
  steady w'.
Proof. intros Hw w' H1 H2 H3. constructor; try done. by apply coherent_dispatch. Qed.

Lemma steady_handlePressStart (E : Env) (w : World Home) :
  state (view w) = idle ∨ state (view w) = recording →
  let w' := exec (handlePressStart E) w in
  result (handlePressStart E) w = Val tt
  ∧ moves_along w w'
  ∧ state (view w') = recording
  ∧ default idle (last (trail (view w'))) = state (view w').
Proof.
  intros Hst. cbv zeta. unfold exec, result. rewrite handlePressStart_spec. cbn.
  split; [done|]. split; [|split; [done|by rewrite last_snoc]].
  exists [recording]. split; [done|]. by destruct Hst as [-> | ->].
Qed.

Lemma steady_handlePressEnd (E : Env) (w : World Home) :
  coherent w →
  state (view w) = recording →
  isRecording (recorder (view w)) = true →
  let w' := exec (handlePressEnd E) w in
  result (handlePressEnd E) w = Val tt
  ∧ moves_along w w'
  ∧ (state (view w') = confirming ∨ state (view w') = idle)
  ∧ isRecording (recorder (view w')) = false
  ∧ default idle (last (trail (view w'))) = state (view w').
Proof.
  intros [Hrec _ _] Hst Hi. cbv zeta.
  destruct (Hrec Hi) as (r & mr & Href & Hmr & Hactive).
  pose proof (stopRecording_active E (hook_world w) r mr Href Hmr
                ltac:(by rewrite Hactive)) as Hstop.
  destruct w as [[st sid t rsp er rc tl] b]. cbn in *. subst st.
  unfold moves_along. unfold_handlers. cbn. unfold hook_world in Hstop. cbn in Hstop.
  rewrite Hstop. clear Hstop.
  destruct sid as [sid|]; split_answers; cbn;
    (split; [done|]);
    (split; [eexists; split; [by rewrite <- app_assoc | done]|]);
    (split; [by eauto|]); (split; [done|]);
    rewrite ?app_assoc; by rewrite last_snoc.
Qed.

Lemma steady_handleConfirm (E : Env) (w : World Home) :
  state (view w) = confirming →
  let w' := exec (handleConfirm E) w in
  result (handleConfirm E) w = Val tt
  ∧ moves_along w w'
  ∧ (w' = w ∨ (state (view w') = playing ∨ state (view w') = idle)
             ∧ default idle (last (trail (view w'))) = state (view w'))
  ∧ recorder (view w') = recorder (view w).
Proof.
  intros Hst. cbv zeta. destruct w as [[st sid t rsp er rc tl] b]. cbn in Hst. subst st.
  unfold moves_along. unfold_handlers. cbn.
  destruct sid as [sid|]; [|by repeat split; [exists []; rewrite app_nil_r|left]].
  destruct t as [t|]; [|by repeat split; [exists []; rewrite app_nil_r|left]].
  split_answers; cbn;
    try (by repeat split; [exists []; rewrite app_nil_r|left]);
    (split; [done|]);
    (split; [eexists; split; [by rewrite <- app_assoc | done]|]);
    (split; [|done]); right; (split; [by eauto|]);
    by rewrite last_snoc.
Qed.

Lemma steady_handleCorrect (E : Env) (text : string) (w : World Home) :
  state (view w) = confirming →
  let w' := exec (handleCorrect E text) w in
  result (handleCorrect E text) w = Val tt
  ∧ moves_along w w'
  ∧ (w' = w ∨ (state (view w') = playing ∨ state (view w') = idle)
             ∧ default idle (last (trail (view w'))) = state (view w'))
  ∧ recorder (view w') = recorder (view w).
Proof.
  intros Hst. cbv zeta. destruct w as [[st sid t rsp er rc tl] b]. cbn in Hst. subst st.
  unfold moves_along. unfold_handlers. cbn.
  destruct sid as [sid|]; [|by repeat split; [exists []; rewrite app_nil_r|left]].
  destruct t as [t|]; [|by repeat split; [exists []; rewrite app_nil_r|left]].
  split_answers; cbn;
    try (by repeat split; [exists []; rewrite app_nil_r|left]);
    (split; [done|]);
    (split; [eexists; split; [by rewrite <- app_assoc | done]|]);
    (split; [|done]); right; (split; [by eauto|]);
    by rewrite last_snoc.
Qed.

(** An action either is let through to its handler by the component that
    offers it, or does nothing at all. *)
Lemma dispatch_cases (E : Env) (ev : UiEvent) (w : World Home) :
  dispatch E ev w = (Val tt, w)
  ∨ match ev with
    | MouseDown =>
        (state (view w) = idle ∨ state (view w) = recording)
        ∧ dispatch E ev w = handlePressStart E w
    | MouseUp =>
        voice_button_shown (view w) = true ∧ isRecording (recorder (view w)) = true
        ∧ dispatch E ev w = handlePressEnd E w
    | ClickConfirm => state (view w) = confirming ∧ dispatch E ev w = handleConfirm E w
    | SubmitCorrection text =>
        state (view w) = confirming ∧ dispatch E ev w = handleCorrect E text w
    | ClickRetry => state (view w) = confirming ∧ dispatch E ev w = handleRetry w
    | AudioEnded => state (view w) = playing ∧ dispatch E ev w = handlePlaybackComplete w
    end.
Proof.
  destruct w as [[st sid t rsp er [i a e m cs] tl] b].
  destruct ev, st; try (by left); try (by right; eauto).
  all: try (destruct i; [by right | by left]).
  all: try (destruct t; [by right | by left]).
  all: try (destruct rsp; [by right | by left]).
Qed.

Lemma moves_along_refl (w : World Home) : moves_along w w.
Proof. exists []. by rewrite app_nil_r. Qed.

Lemma dispatch_steady (E : Env) (ev : UiEvent) (w : World Home) :
  steady w →
  result (dispatch E ev) w = Val tt
  ∧ moves_along w (exec (dispatch E ev) w)
  ∧ steady (exec (dispatch E ev) w).
Proof.
  intros Hw. pose proof Hw as [Hc Hset Hrec Htr].
  assert (Hidle : state (view w) ≠ recording → isRecording (recorder (view w)) = false).
  { intros Hne. destruct (isRecording (recorder (view w))); [|done]. by destruct Hne, Hrec. }
  pose proof (steady_intro E ev w Hc) as Hintro. cbv zeta in Hintro.
  unfold exec, result in *.
  destruct (dispatch_cases E ev w) as [->|Hcase];
    [by split; [|split; [apply moves_along_refl|]]|].
  destruct ev.
  - destruct Hcase as [Hst Heq]. rewrite Heq in *.
    destruct (steady_handlePressStart E w Hst) as (Hres & Hmove & Hstate & Htrail).
    unfold exec, result in *. split; [done|]. split; [done|].
    apply Hintro; [by rewrite Hstate | done | done].
  - destruct Hcase as (Hshown & Hi & Heq). rewrite Heq in *.
    destruct (steady_handlePressEnd E w Hc (Hrec Hi) Hi)
      as (Hres & Hmove & Hstate & Hoff & Htrail).
    unfold exec, result in *. split; [done|]. split; [done|].
    apply Hintro; [by destruct Hstate as [-> | ->] | by rewrite Hoff | done].
  - destruct Hcase as [Hst Heq]. rewrite Heq in *.
    destruct (steady_handleConfirm E w Hst) as (Hres & Hmove & Hstate & Hrc).
    unfold exec, result in *. split; [done|]. split; [done|].
    destruct Hstate as [Hsame|[Hstate Htrail]]; [by rewrite Hsame|].
    apply Hintro; [by destruct Hstate as [-> | ->] | | done].
    rewrite Hrc, Hidle by (by rewrite Hst). done.
  - destruct Hcase as [Hst Heq]. rewrite Heq in *.
    destruct (steady_handleCorrect E correctedText w Hst) as (Hres & Hmove & Hstate & Hrc).
    unfold exec, result in *. split; [done|]. split; [done|].
    destruct Hstate as [Hsame|[Hstate Htrail]]; [by rewrite Hsame|].
    apply Hintro; [by destruct Hstate as [-> | ->] | | done].
    rewrite Hrc, Hidle by (by rewrite Hst). done.
  - destruct Hcase as [Hst Heq]. rewrite Heq in *.
    split; [done|]. split.
    + exists [idle]. by rewrite Hst.
    + apply Hintro; cbn; [done| |by rewrite last_snoc].
      rewrite Hidle by (by rewrite Hst). done.
  - destruct Hcase as [Hst Heq]. rewrite Heq in *.
    split; [done|]. split.
    + exists [idle]. by rewrite Hst.
    + apply Hintro; cbn; [done| |by rewrite last_snoc].
      rewrite Hidle by (by rewrite Hst). done.
Qed.

Lemma moves_along_trans (w w1 w2 : World Home) :
  steady w → steady w1 → moves_along w w1 → moves_along w1 w2 → moves_along w w2.
Proof.
  intros [_ _ _ Ht] [_ _ _ Ht1] (l1 & Hl1 & Hf1) (l2 & Hl2 & Hf2).
  exists (l1 ++ l2). split; [by rewrite Hl2, Hl1, app_assoc|].
  rewrite follows_app, Hf1. cbn.
  replace (default (state (view w)) (last l1)) with (state (view w1)); [done|].
  rewrite <- Ht1, Hl1. destruct l1 as [|x l1 _] using rev_ind.
  - by rewrite app_nil_r, Ht.
  - by rewrite app_assoc, !last_snoc.
Qed.

Lemma play_steady (script : list (Env * UiEvent)) (w : World Home) :
  steady w → steady (play script w) ∧ moves_along w (play script w).
Proof.
  unfold play. revert w. induction script as [|[E ev] script IH]; intros w Hw.
  - split; [done | apply moves_along_refl].
  - cbn. destruct (dispatch_steady E ev w Hw) as (_ & Hmove & Hw1).
    destruct (IH _ Hw1) as [Hw2 Hmove2]. split; [done|].
    by apply (moves_along_trans w _ _ Hw Hw1).
Qed.

(** X12. An action that finds the page at rest (no handler in flight, the
    flow state one in which the page waits for the user, the hook recording
    only in [recording] and then through an active recorder) and that runs to
    completion changes the flow state only along the edges of the flow: idle
    to recording, recording to processing (or to itself on a repeated
    press), processing to confirming or back to idle, confirming to
    responding or, on retry, to idle, responding to playing or back to idle,
    playing to idle.  The states it sets form a walk along these edges from
    the state it found, and the page ends in the last of them. *)
Theorem flow_state_follows_edges (E : Env) (ev : UiEvent) (w : World Home) :
  steady w →
  let w' := exec (dispatch E ev) w in
  ∃ path, trail (view w') = trail (view w) ++ path
          ∧ follows (state (view w)) path = true
          ∧ state (view w') = default (state (view w)) (last path).
Proof.
  intros Hw. cbv zeta.
  destruct (dispatch_steady E ev w Hw) as (_ & (path & Hpath & Hwalk) & [_ _ _ Hlast]).
  exists path. split; [done|]. split; [done|].
  rewrite <- Hlast, Hpath. destruct path as [|x path _] using rev_ind.
  - rewrite app_nil_r. by destruct Hw.
  - by rewrite app_assoc, !last_snoc.
Qed.

Lemma flow_state_follows_edges_witness :
  let w := play [(happy_env, MouseDown)] fresh_home in
  ∃ path, trail (view (exec (dispatch no_upload_env MouseUp) w)) = [recording] ++ path
          ∧ follows recording path = true
          ∧ state (view (exec (dispatch no_upload_env MouseUp) w))
            = default recording (last path).
Proof.
  intros w.
  assert (Hw : steady w) by (apply play_steady, steady_fresh).
  exact (flow_state_follows_edges no_upload_env MouseUp w Hw).
Defined.

(** X13. An action that finds the page at rest and runs to completion
    leaves it at rest: the handler completes whatever the browser and the
    backend answer, the page ends in one of [idle], [recording],
    [confirming], [playing], never in [processing] or [responding], the hook
    is recording only if the page is in [recording], and the next action
    finds the page at rest again.  The page is at rest when it is loaded. *)
Theorem page_settles_between_actions (E : Env) (ev : UiEvent) (w : World Home) :
  steady w →
  let w' := exec (dispatch E ev) w in
  result (dispatch E ev) w = Val tt
  ∧ settled (state (view w')) = true
  ∧ (isRecording (recorder (view w')) = true → state (view w') = recording)
  ∧ steady w'
  ∧ steady fresh_home.
Proof.
  intros Hw. cbv zeta.
  destruct (dispatch_steady E ev w Hw) as (Hres & _ & Hw').
  pose proof Hw' as [_ Hset Hrec _].
  split; [done|]. split; [done|]. split; [done|]. split; [done | apply steady_fresh].
Qed.

Lemma page_settles_between_actions_witness :
  let w := play [(happy_env, MouseDown)] fresh_home in
  settled (state (view (exec (dispatch no_upload_env MouseUp) w))) = true.
Proof.
  intros w.
  assert (Hw : steady w) by (apply play_steady, steady_fresh).
  destruct (page_settles_between_actions no_upload_env MouseUp w Hw) as (_ & H & _).
  exact H.
Defined.

(** X14. A session is created once: as soon as the page holds a non-empty
    session identifier, no user action, in any environment, changes it or
    sends another session-creation request. *)
Theorem session_is_created_once (E : Env) (ev : UiEvent) (w : World Home) :
  truthy (sessionId (view w)) = true →
  let w' := exec (dispatch E ev) w in
  sessionId (view w') = sessionId (view w)
  ∧ Forall (fun r => req_url r ≠ "/api/voice/session") (new_requests w w').
Proof.
  intros Hsid. cbv zeta. unfold exec, new_requests.
  destruct (dispatch_cases E ev w) as [->|Hcase].
  { split; [done|]. by rewrite drop_all. }
  destruct ev.
  - destruct Hcase as [_ ->]. rewrite handlePressStart_spec. cbn.
    destruct (startRecording_offline E (hook_world w)) as [-> _].
    split; [done|]. by rewrite drop_all.
  - destruct Hcase as (_ & _ & ->).
    destruct w as [[st sid t rsp er rc tl] b]. cbn in Hsid.
    pose proof (stopRecording_offline E (mkWorld rc b)) as [Hsent _].
    unfold_handlers. cbn in *.
    destruct (stopRecording E (mkWorld rc b)) as [[blob|e|] [rc' b']]; cbn in *;
      rewrite ?Hsid; cbn; rewrite ?Hsent, ?drop_all; try done.
    destruct sid as [sid|]; [|done]. rewrite Hsid. cbn.
    destruct (env_uploadAudio E sid blob); cbn;
      rewrite Hsent, drop_app_length; (split; [done|]);
      apply Forall_singleton; rewrite request_of_url; cbn; discriminate.
  - destruct Hcase as [_ ->].
    destruct w as [[st sid t rsp er rc tl] b]. cbn in Hsid.
    unfold_handlers. cbn.
    destruct sid as [sid|]; [|done]. destruct t as [t|]; [|by rewrite drop_all].
    rewrite Hsid. cbn.
    destruct (env_confirmTranscript E _ _ _ _); cbn;
      [|destruct (env_generateResponse E _ _ _); cbn];
      rewrite <- ?app_assoc, drop_app_length; (split; [done|]);
      repeat apply Forall_cons_2; try apply Forall_nil_2;
      rewrite request_of_url; cbn; discriminate.
  - destruct Hcase as [_ ->].
    destruct w as [[st sid t rsp er rc tl] b]. cbn in Hsid.
    unfold_handlers. cbn.
    destruct sid as [sid|]; [|done]. destruct t as [t|]; [|by rewrite drop_all].
    rewrite Hsid. cbn.
    destruct (env_confirmTranscript E _ _ _ _); cbn;
      [|destruct (env_generateResponse E _ _ _); cbn];
      rewrite <- ?app_assoc, drop_app_length; (split; [done|]);
      repeat apply Forall_cons_2; try apply Forall_nil_2;
      rewrite request_of_url; cbn; discriminate.
  - destruct Hcase as [_ ->]. cbn. by rewrite drop_all.
  - destruct Hcase as [_ ->]. cbn. by rewrite drop_all.
Qed.

Lemma session_is_created_once_witness :
  let w := play [(happy_env, MouseDown); (happy_env, MouseUp); (happy_env, ClickRetry);
                 (happy_env, MouseDown)] fresh_home in
  let w' := exec (dispatch happy_env MouseUp) w in
  sessionId (view w') = Some "session-1"
  ∧ map req_url (new_requests w w') = ["/api/voice/upload/session-1"].
Proof.
  intros w w'.
  destruct (session_is_created_once happy_env MouseUp w eq_refl) as [H _].
  split; [exact H | reflexivity].
Defined.

(** X15. A session created with an empty identifier makes the release drop
    the turn without a word: the page stores the empty identifier, goes back
    to [idle], sends no upload, and sets no error, the captured audio staying
    in the hook. *)
Theorem empty_session_id_drops_turn (E : Env) (w : World Home) (r : nat)
    (mr : MediaRecorder) :
  voice_button_shown (view w) = true →
  isRecording (recorder (view w)) = true →
  mediaRecorderRef (recorder (view w)) = Some r →
  recorders (browser w) !! r = Some mr →
  mr_state mr ≠ rs_inactive →
  truthy (sessionId (view w)) = false →
  env_createSession E (device_info E) = inr (mkSessionResponse "") →
  let w' := exec (dispatch E MouseUp) w in
  state (view w') = idle
  ∧ error (view w') = error (view w)
  ∧ sessionId (view w') = Some ""
  ∧ map req_url (new_requests w w') = ["/api/voice/session"]
  ∧ audioBlob (recorder (view w')) = Some (captured E (recorder (view w))).
Proof.
  intros Hshown Hi Href Hmr Hactive Hsid Hcreate. cbv zeta. unfold exec, new_requests.
  rewrite dispatch_MouseUp by done.
  pose proof (stopRecording_active E (hook_world w) r mr Href Hmr Hactive) as Hstop.
  destruct w as [[st sid t rsp er rc tl] b]. cbn in *.
  unfold device_info in Hcreate.
  unfold_handlers. cbn. unfold hook_world in Hstop. cbn in Hstop. rewrite Hstop. cbn.
  rewrite Hsid. cbn. rewrite Hcreate. cbn.
  change (truthy (Some "")) with false. cbn.
  rewrite drop_app_length. cbn. by rewrite request_of_url.
Qed.

Lemma empty_session_id_drops_turn_witness :
  let w := play [(happy_env, MouseDown)] fresh_home in
  let w' := exec (dispatch empty_session_env MouseUp) w in
  state (view w') = idle ∧ error (view w') = None ∧ sessionId (view w') = Some "".
Proof.
  intros w w'.
  destruct (empty_session_id_drops_turn empty_session_env w 0
              (mkMediaRecorder 0 opus rs_recording (Some 100%Z))
              eq_refl eq_refl eq_refl eq_refl ltac:(discriminate) eq_refl eq_refl)
    as (H1 & H2 & H3 & _).
  split; [exact H1|]. split; [exact H2 | exact H3].
Defined.

(** X16. After a press whose microphone request was refused the page shows
    [recording] but the release does nothing, since the hook is not
    recording: the page stays in [recording] with no error on screen and
    nothing sent, until the button is pressed again. *)
Theorem release_after_refused_press_is_ignored (E E' : Env) (w : World Home)
    (err : JsError) :
  env_getUserMedia E audio_constraints = inl err →
  state (view w) = idle →
  isRecording (recorder (view w)) = false →
  let w1 := exec (dispatch E MouseDown) w in
  state (view w1) = recording
  ∧ error_banner (view w1) = None
  ∧ dispatch E' MouseUp w1 = (Val tt, w1)
  ∧ sent (browser w1) = sent (browser w).
Proof.
  intros Hmic Hidle Hrec. cbv zeta. unfold exec.
  rewrite (dispatch_MouseDown E w) by (rewrite Hidle; repeat split; discriminate).
  rewrite handlePressStart_spec. cbn.
  unfold exec. rewrite (startRecording_refused E _ err Hmic). cbn.
  split; [done|]. split; [done|]. split; [|done].
  unfold dispatch, bind. cbn. by rewrite Hrec.
Qed.

Lemma release_after_refused_press_is_ignored_witness :
  let w1 := exec (dispatch deaf_env MouseDown) fresh_home in
  state (view w1) = recording ∧ dispatch happy_env MouseUp w1 = (Val tt, w1).
Proof.
  destruct (release_after_refused_press_is_ignored deaf_env happy_env fresh_home
              (DOMException "NotAllowedError") eq_refl eq_refl eq_refl)
    as (H1 & _ & H3 & _).
  split; [exact H1 | exact H3].
Defined.

(** X17. The release handler called while the hook holds no recorder (which
    the button does not let happen) fails before any request: nothing is
    sent, the page passes through [processing] back to [idle] and shows the
    audio-processing error. *)
Theorem release_without_recorder_fails_locally (E : Env) (w : World Home) :
  mediaRecorderRef (recorder (view w)) = None →
  let w' := exec (handlePressEnd E) w in
  result (handlePressEnd E) w = Val tt
  ∧ sent (browser w') = sent (browser w)
  ∧ trail (view w') = trail (view w) ++ [processing; idle]
  ∧ state (view w') = idle
  ∧ error_banner (view w') = Some "Ошибка при обработке аудио".
Proof.
  intros Href. cbv zeta.
  pose proof (stop_rejects_on_null_reference E (hook_world w) Href) as Hstop.
  destruct w as [[st sid t rsp er rc tl] b]. unfold hook_world in Hstop. cbn in *.
  unfold_handlers. cbn. rewrite Hstop. cbn. by rewrite <- app_assoc.
Qed.

Lemma release_without_recorder_fails_locally_witness :
  let w' := exec (handlePressEnd happy_env) fresh_home in
  state (view w') = idle ∧ sent (browser w') = []
  ∧ error (view w') = Some "Ошибка при обработке аудио".
Proof.
  destruct (release_without_recorder_fails_locally happy_env fresh_home eq_refl)
    as (_ & H2 & _ & H4 & _).
  split; [exact H4|]. split; [exact H2 | reflexivity].
Defined.

(** ** The confirmation screen *)

Section ConfirmationProperties.

Variable trim : string -> string.

(** X18. Saving an edit sends a correction only for a text that is not empty
    once trimmed and differs from the transcript shown: otherwise nothing
    happens at all.  When something is sent, the first request is the
    rejection of the transcript ([confirmed] false) carrying the trimmed,
    non-empty text. *)
Theorem submit_edit_sends_only_real_corrections (E : Env) (editedText : string)
    (w : World Home) (t : TranscribeResponse) :
  transcription (view w) = Some t →
  let w' := exec (submit_edit trim E editedText) w in
  (trim editedText = "" ∨ editedText = normalized_transcript t → w' = w)
  ∧ (new_requests w w' ≠ [] →
     trim editedText ≠ ""
     ∧ ∃ sid, head (new_requests w w') =
              Some (request_of (localStorage (browser w))
                      (ConfirmTranscript sid (turn_id t) false (JStr (trim editedText))))).
Proof.
  intros Ht. cbv zeta. destruct w as [[st sid t0 rsp er rc tl] b]. cbn in Ht. subst t0.
  unfold exec, new_requests, submit_edit, handleCorrectSubmit, bind. cbn.
  destruct (confirmation_shown _) eqn:Hshown; cbn;
    [|split; [done | by rewrite drop_all]].
  destruct (truthy (Some (trim editedText))) eqn:Htrim; cbn.
  2: { split; [done | by rewrite drop_all]. }
  assert (Hne : trim editedText ≠ "") by (intros Heq; by rewrite Heq in Htrim).
  destruct (String.eqb_spec editedText (normalized_transcript t)) as [Heq|Hdiff]; cbn.
  { split; [done | by rewrite drop_all]. }
  split; [by intros [?|?]|]. intros Hsent. split; [done|].
  unfold_handlers. cbn in *.
  destruct sid as [sid|]; [|by rewrite drop_all in Hsent].
  destruct (truthy (Some sid)); cbn in *; [|by rewrite drop_all in Hsent].
  exists sid.
  destruct (env_confirmTranscript E _ _ _ _); cbn;
    [|destruct (env_generateResponse E _ _ _); cbn];
    by rewrite <- ?app_assoc, drop_app_length.
Qed.

(** X19. The screen compares the text as typed, not as trimmed: an edit that
    only adds blanks around the transcript is let through, and what the
    backend receives as the user's correction is the transcript itself,
    marked as not confirmed. *)
Theorem blank_padded_edit_sends_the_transcript (E : Env) (editedText sid : string)
    (w : World Home) (t : TranscribeResponse) :
  state (view w) = confirming →
  transcription (view w) = Some t →
  sessionId (view w) = Some sid → sid ≠ "" →
  editedText ≠ normalized_transcript t →
  trim editedText = normalized_transcript t →
  normalized_transcript t ≠ "" →
  let w' := exec (submit_edit trim E editedText) w in
  head (new_requests w w') =
    Some (request_of (localStorage (browser w))
            (ConfirmTranscript sid (turn_id t) false (JStr (normalized_transcript t)))).
Proof.
  intros Hst Ht Hsid Hne Hdiff Htrim Hnon. cbv zeta.
  destruct w as [[st sid0 t0 rsp er rc tl] b]. cbn in *. subst st sid0 t0.
  unfold exec, new_requests, submit_edit, handleCorrectSubmit, bind. cbn.
  rewrite Htrim, (truthy_non_empty _ Hnon).
  destruct (String.eqb_spec editedText (normalized_transcript t)) as [Heq|_]; [done|]. cbn.
  unfold_handlers. cbn. rewrite (truthy_non_empty _ Hne). cbn.
  destruct (env_confirmTranscript E _ _ _ _); cbn;
    [|destruct (env_generateResponse E _ _ _); cbn];
    by rewrite <- ?app_assoc, drop_app_length.
Qed.

End ConfirmationProperties.

Lemma submit_edit_sends_only_real_corrections_witness :
  let w := play [(happy_env, MouseDown); (happy_env, MouseUp)] fresh_home in
  exec (submit_edit trim_blanks happy_env "   ") w = w.
Proof.
  intros w.
  destruct (submit_edit_sends_only_real_corrections trim_blanks happy_env "   " w
              sample_transcript eq_refl) as [H _].
  apply H. left. reflexivity.
Defined.

Lemma blank_padded_edit_sends_the_transcript_witness :
  let w := play [(happy_env, MouseDown); (happy_env, MouseUp)] fresh_home in
  let w' := exec (submit_edit trim_blanks happy_env " Привет ") w in
  head (new_requests w w') =
    Some (request_of ∅ (ConfirmTranscript "session-1" "turn-1" false (JStr "Привет"))).
Proof.
  intros w.
  apply (blank_padded_edit_sends_the_transcript trim_blanks happy_env " Привет "
           "session-1" w sample_transcript); try reflexivity; discriminate.
Defined.

(** ** The response player *)

Lemma prefix_append (p s rest : string) :
  String.prefix p s = true → String.prefix p (s +:+ rest) = true.
Proof.
  revert s. induction p as [|a p IH]; intros s H; [by destruct (s +:+ rest)|].
  destruct s as [|b s]; [done|].
  change (String b s +:+ rest) with (String b (s +:+ rest)). cbn in *.
  destruct (Ascii.ascii_dec a b); [by apply IH | done].
Qed.

(** The base the player puts in front of a relative URL. *)
Lemma fullAudioUrl_relative (base : option string) (audioUrl : string) :
  String.prefix "http" audioUrl = false →
  fullAudioUrl base audioUrl =
    (if truthy base then default "" base else "http://localhost:8000") +:+ audioUrl.
Proof.
  intros Hrel. unfold fullAudioUrl. rewrite Hrel.
  destruct base as [base|]; [|done]. by destruct (truthy (Some base)).
Qed.

(** X20. The player leaves a URL that starts with [http] as it is and puts
    the backend base in front of any other.  When that base itself starts
    with [http], as the built-in one does and as an unset or empty
    [NEXT_PUBLIC_API_URL] yields, the result always starts with [http], and
    completing a URL twice is completing it once. *)
Theorem fullAudioUrl_is_absolute_and_idempotent (base : option string)
    (audioUrl : string) :
  (if truthy base then String.prefix "http" (default "" base) else true) = true →
  String.prefix "http" (fullAudioUrl base audioUrl) = true
  ∧ fullAudioUrl base (fullAudioUrl base audioUrl) = fullAudioUrl base audioUrl
  ∧ (String.prefix "http" audioUrl = true → fullAudioUrl base audioUrl = audioUrl).
Proof.
  intros Hbase.
  assert (Habs : String.prefix "http" (fullAudioUrl base audioUrl) = true).
  { destruct (String.prefix "http" audioUrl) eqn:Hurl.
    - unfold fullAudioUrl. by rewrite Hurl.
    - rewrite fullAudioUrl_relative by done. apply prefix_append.
      by destruct (truthy base). }
  split; [done|]. split.
  - unfold fullAudioUrl at 1. by rewrite Habs.
  - intros Hurl. unfold fullAudioUrl. by rewrite Hurl.
Qed.

Lemma fullAudioUrl_is_absolute_and_idempotent_witness :
  fullAudioUrl (Some "") "/audio/turn-1.mp3" = "http://localhost:8000/audio/turn-1.mp3"
  ∧ fullAudioUrl (Some "https://api.example.kz") "httpfoo" = "httpfoo".
Proof.
  destruct (fullAudioUrl_is_absolute_and_idempotent (Some "https://api.example.kz")
              "httpfoo" eq_refl) as (_ & _ & H).
  split; [reflexivity | apply H; reflexivity].
Defined.

(** ** More of the back-office pages *)

Ltac unfold_admin :=
  unfold exec, result, new_requests, run_op, in_users, in_terms, in_analytics,
    in_conversations, in_detail, zoom, startEdit, loadUsers, saveEdit, loadTerms,
    handleApprove, handleReject, handleAddTerm, loadAnalytics, loadData, applyFilter,
    loadConversation, setFilter, try_finally, try_catch, fire_and_forget, bind, call in *.

(** X21. Opening the editor on a user and saving at once sends back that
    user's present providers, under the user's identifier.  If the backend
    rejects the update the editor stays open on the same user with the form
    as it was and the list untouched; if it accepts, the editor closes and
    the list is reloaded. *)
Theorem edit_then_save (Adm : AdminEnv) (user : User) (w : World UsersPage) :
  let form := (provider_name (user_stt_provider user),
               provider_name (user_tts_provider user)) in
  let answer := adm_updateUser Adm (user_id user) (editForm_json form) in
  let w' := exec (startEdit user ;; saveEdit Adm (user_id user)) w in
  head (new_requests w w') =
    Some (request_of (localStorage (browser w))
            (UpdateUser (user_id user)
               [("stt_provider", JStr (provider_name (user_stt_provider user)));
                ("tts_provider", JStr (provider_name (user_tts_provider user)))]))
  ∧ (∀ err, answer = inl err →
       editingId (view w') = Some (user_id user)
       ∧ editForm (view w') = form
       ∧ users (view w') = users (view w)
       ∧ console (browser w') = console (browser w) ++ [("Failed to update user:", err)])
  ∧ (∀ updated, answer = inr updated →
       editingId (view w') = None
       ∧ users_loading (view w') = false
       ∧ ∀ list, adm_getUsers Adm = inr list → users (view w') = list).
Proof.
  destruct w as [[us ul ue uf] b]. cbv zeta. do 2 unfold_admin. cbn.
  destruct (adm_updateUser Adm _ _) as [err|updated]; cbn.
  - rewrite drop_app_length. split; [done|]. split; [|done]. by intros ? [= <-].
  - destruct (adm_getUsers Adm) as [err|list]; cbn;
      rewrite <- ?app_assoc, drop_app_length; (split; [done|]); (split; [done|]);
      intros _ _; repeat split; try done; by intros ? [= <-].
Qed.

Lemma edit_then_save_witness :
  let w := mkWorld (mkUsersPage [sample_user] false None ("", "")) empty_browser in
  let w' := exec (startEdit sample_user ;; saveEdit failing_admin "u-12345678-abcd") w in
  editingId (view w') = Some "u-12345678-abcd" ∧ editForm (view w') = ("openai", "google").
Proof.
  intros w.
  destruct (edit_then_save failing_admin sample_user w) as (_ & H & _).
  destruct (H network_error eq_refl) as (H1 & H2 & _).
  split; [exact H1 | exact H2].
Defined.

(** X22. Approving or rejecting a term, once the backend accepts it, is
    followed by a reload of the list under the current status filter, which
    ends loading.  The list shown is then the one the reload answers; if the
    reload itself fails the list stays as it was and the console reports a
    failure to load, not a failure to approve or reject. *)
Theorem term_decision_reloads (Adm : AdminEnv) (approve : bool) (id : string)
    (w : World TermsPage) (updated : UnknownTerm) :
  (if approve then adm_approveTerm Adm id else adm_rejectTerm Adm id) = inr updated →
  let w' := exec (if approve then handleApprove Adm id else handleReject Adm id) w in
  let reload := adm_getUnknownTerms Adm (status_param (statusFilter (view w))) in
  map req_url (new_requests w w') =
    [ "/api/admin/unknown-terms/" +:+ id +:+ (if approve then "/approve" else "/reject");
      "/api/admin/unknown-terms" ]
  ∧ terms_loading (view w') = false
  ∧ (∀ list, reload = inr list →
       terms (view w') = list ∧ console (browser w') = console (browser w))
  ∧ (∀ err, reload = inl err →
       terms (view w') = terms (view w)
       ∧ console (browser w') = console (browser w) ++ [("Failed to load terms:", err)]).
Proof.
  intros Hanswer. destruct w as [[ts tl tf ta tn] b]. cbv zeta.
  destruct approve; do 2 unfold_admin; cbn in *; rewrite Hanswer; cbn;
    destruct (adm_getUnknownTerms Adm _) as [err|list]; cbn;
    rewrite <- ?app_assoc, drop_app_length; cbn; rewrite !request_of_url;
    (split; [done|]); (split; [done|]);
    (split; [by intros ? [= <-] | by intros ? [= <-]]).
Qed.

Lemma term_decision_reloads_witness :
  let adm := mkAdminEnv (inl network_error) (fun _ _ => inl network_error)
               (fun _ => inl network_error) (fun _ => inl network_error)
               (fun _ => inl network_error) (fun _ => inl network_error)
               (fun _ => inr (mkUnknownTerm "t1" ru "a" "b" [] None 1 approved "" ""))
               (fun _ => inl network_error) (inl network_error) false in
  let w := mkWorld initial_terms_page empty_browser in
  console (browser (exec (handleApprove adm "t1") w))
    = [("Failed to load terms:", network_error)].
Proof.
  intros adm w.
  destruct (term_decision_reloads adm true "t1" w
              (mkUnknownTerm "t1" ru "a" "b" [] None 1 approved "" "") eq_refl)
    as (_ & _ & _ & H).
  by destruct (H network_error eq_refl) as [_ ->].
Defined.

(** X23. Adding a term: when the backend accepts it the form is emptied and
    hidden and the list reloaded; when it rejects it the form stays open
    with what was typed, the list is untouched, no reload is asked for, and
    the failure goes to the console only. *)
Theorem add_term_keeps_form_on_failure (Adm : AdminEnv) (w : World TermsPage) :
  let answer := adm_createUnknownTerm Adm (newTerm_json (newTerm (view w))) in
  let w' := exec (handleAddTerm Adm) w in
  (∀ created, answer = inr created →
     newTerm (view w') = blank_term ∧ showAddForm (view w') = false
     ∧ map req_url (new_requests w w') =
         ["/api/admin/unknown-terms"; "/api/admin/unknown-terms"]
     ∧ map req_method (new_requests w w') = ["POST"; "GET"])
  ∧ (∀ err, answer = inl err →
       newTerm (view w') = newTerm (view w)
       ∧ showAddForm (view w') = showAddForm (view w)
       ∧ terms (view w') = terms (view w)
       ∧ length (new_requests w w') = 1%nat
       ∧ console (browser w') = console (browser w) ++ [("Failed to add term:", err)]).
Proof.
  destruct w as [[ts tl tf ta tn] b]. cbv zeta. do 2 unfold_admin. cbn.
  destruct (adm_createUnknownTerm Adm _) as [err|created]; cbn.
  - split; [done|]. intros ? [= <-]. by rewrite drop_app_length.
  - split; [|done]. intros _ _.
    destruct (adm_getUnknownTerms Adm _); cbn;
      rewrite <- ?app_assoc, drop_app_length; cbn;
      by rewrite !request_of_url, !request_of_method.
Qed.

Lemma add_term_keeps_form_on_failure_witness :
  let w := mkWorld (mkTermsPage [] false "" true (mkNewTerm "kk" "salem" "сәлем"))
                   empty_browser in
  let w' := exec (handleAddTerm failing_admin) w in
  newTerm (view w') = mkNewTerm "kk" "salem" "сәлем" ∧ showAddForm (view w') = true.
Proof.
  intros w.
  destruct (add_term_keeps_form_on_failure failing_admin w) as [_ H].
  destruct (H network_error eq_refl) as (H1 & H2 & _).
  split; [exact H1 | exact H2].
Defined.

(** X24. No load leaves its page loading: each of the six loading
    operations resolves and ends with the loading flag of its page off,
    whether the backend answered or not. *)
Theorem loads_end_loading (Adm : AdminEnv) (op : AdminOp) (w : World Admin) :
  is_load op = true →
  result (run_op Adm op) w = Val tt
  ∧ op_loading op (view (exec (run_op Adm op) w)) = false.
Proof.
  destruct w as [[[us ul ue uf] [ts tl tf ta tn] [ad al] [cs cu cl cf] [di dc dl]] b].
  destruct op; try discriminate; intros _; unfold_admin; cbn -[promise_all2];
    repeat match goal with
           | |- context [match ?x with inl _ => _ | inr _ => _ end] =>
               destruct x; cbn -[promise_all2]
           | p : (list Conversation * list User)%type |- _ => destruct p; cbn
           end; done.
Qed.

Lemma loads_end_loading_witness :
  op_loading OpLoadData (view (exec (run_op failing_admin OpLoadData) fresh_admin)) = false.
Proof.
  destruct (loads_end_loading failing_admin OpLoadData fresh_admin eq_refl) as [_ H].
  exact H.
Defined.

Lemma request_of_params (storage : gmap string string) (e : Endpoint) :
  req_params (request_of storage e) = req_params (config_of e).
Proof.
  unfold request_of, request_interceptor.
  destruct (storage !! "token") as [t|]; [|done]. by destruct (truthy (Some t)).
Qed.

Lemma or_undefined_not_empty (value : string) : or_undefined value ≠ Some "".
Proof. unfold or_undefined. destruct value; [by cbn | by cbn]. Qed.

Lemma edit_filter_tidy (e : FilterEdit) (f : ConversationFilter) :
  tidy_filter f → tidy_filter (edit_filter e f).
Proof.
  intros (H1 & H2 & H3 & H4 & H5).
  destruct e; cbn; repeat split; try done; try apply or_undefined_not_empty.
  by destruct checked.
Qed.

Lemma edit_filters_spec (edits : list FilterEdit) (w : World ConversationsPage) :
  tidy_filter (conv_filter (view w)) →
  tidy_filter (conv_filter (view (edit_filters edits w)))
  ∧ sent (browser (edit_filters edits w)) = sent (browser w)
  ∧ localStorage (browser (edit_filters edits w)) = localStorage (browser w).
Proof.
  unfold edit_filters. revert w.
  induction edits as [|e edits IH]; intros w Hw; [done|].
  cbn. destruct (IH (exec (setFilter e) w)) as (H1 & H2 & H3);
    [by apply edit_filter_tidy | done].
Qed.

Lemma tidy_opt_str (o : option string) : o ≠ Some "" → tidy_param (opt_str o).
Proof.
  intros Ho. destruct o as [s|]; [|by left]. right. left. exists s.
  split; [done|]. by intros ->.
Qed.

(** X25. However the filter inputs of the conversations page have been
    edited, the stored filter never holds an empty string or a [false]:
    clearing an input removes the field.  So the request of "apply" carries,
    for each of its five parameters, nothing, a non-empty string, or
    [true]. *)
Theorem filter_request_is_tidy (Adm : AdminEnv) (edits : list FilterEdit) (b : Browser) :
  let w := edit_filters edits (mkWorld initial_conversations_page b) in
  let w' := exec (applyFilter Adm) w in
  tidy_filter (conv_filter (view w))
  ∧ ∃ request, new_requests w w' = [request]
      ∧ req_url request = "/api/admin/conversations"
      ∧ map fst (req_params request) =
          ["user_id"; "provider"; "date_from"; "date_to"; "low_confidence"]
      ∧ Forall (fun kv => tidy_param (snd kv)) (req_params request).
Proof.
  cbv zeta.
  destruct (edit_filters_spec edits (mkWorld initial_conversations_page b))
    as (Htidy & _ & _); [by repeat split|].
  split; [done|].
  destruct (edit_filters edits _) as [[cs cu cl cf] b'] eqn:Hw. cbn in Htidy.
  destruct Htidy as (H1 & H2 & H3 & H4 & H5).
  exists (request_of (localStorage b') (GetConversations (filter_params cf))).
  unfold_admin. cbn.
  split.
  { destruct (adm_getConversations Adm _); cbn; by rewrite drop_app_length. }
  rewrite request_of_url, request_of_params. cbn.
  split; [done|]. split; [done|].
  repeat apply Forall_cons_2; try apply Forall_nil_2; cbn; try by apply tidy_opt_str.
  destruct (f_low_confidence cf) as [[]|]; [by right; right | done | by left].
Qed.

Lemma utf16_non_empty (s : string) : s ≠ "" → utf16 s ≠ [].
Proof.
  destruct s as [|c0 rest]; [done|]. intros _. cbn [utf16].
  repeat case_match; discriminate.
Qed.

Lemma find_first_match {A} (f : A → bool) (before : list A) (x : A) (after : list A) :
  Forall (fun y => f y = false) before → f x = true →
  List.find f (before ++ x :: after) = Some x.
Proof.
  intros Hbefore Hx. induction Hbefore as [|y before Hy _ IH]; cbn.
  - by rewrite Hx.
  - by rewrite Hy.
Qed.

Lemma find_no_match {A} (f : A → bool) (l : list A) :
  Forall (fun y => f y = false) l → List.find f l = None.
Proof. intros Hl. induction Hl as [|y l Hy _ IH]; cbn; [done|]. by rewrite Hy. Qed.

(** X26. What the user cell of a conversation row shows: the name sent with
    the conversation if that is not empty; else the name of the first loaded
    user with the conversation's user identifier, if that name is not empty;
    else (no such user, or one with an empty name) the first eight UTF-16
    code units of the identifier.  The cell is therefore never blank for a
    conversation that has a user identifier, and never longer than eight
    units when it falls back on the identifier. *)
Theorem user_cell_is_never_blank (users : list User) (conv : Conversation) :
  conv_user_id conv ≠ "" →
  let userId := conv_user_id conv in
  let short := slice_to 8 (utf16 userId) in
  user_cell users conv ≠ []
  ∧ (∀ name, conv_user_name conv = Some name → name ≠ "" →
       user_cell users conv = utf16 name)
  ∧ (truthy (conv_user_name conv) = false →
     (∀ before user after,
        users = before ++ user :: after →
        Forall (fun u => user_id u ≠ userId) before →
        user_id user = userId →
        (user_name user ≠ "" → user_cell users conv = utf16 (user_name user))
        ∧ (user_name user = "" → user_cell users conv = short))
     ∧ (Forall (fun u => user_id u ≠ userId) users → user_cell users conv = short))
  ∧ short = take 8 (utf16 userId) ∧ (0 < length short ≤ 8)%nat.
Proof.
  intros Hid userId short.
  assert (Hshort : short ≠ []).
  { subst short. unfold slice_to.
    pose proof (utf16_non_empty userId Hid) as Hne.
    by destruct (utf16 userId). }
  assert (Hname : getUserName users userId ≠ []).
  { unfold getUserName. destruct (List.find _ users) as [u|]; [|done].
    destruct (truthy (Some (user_name u))) eqn:Hu; [|done].
    apply utf16_non_empty. intros Hempty. by rewrite Hempty in Hu. }
  assert (Hmiss : ∀ l, Forall (fun u => user_id u ≠ userId) l →
            Forall (fun u => String.eqb (user_id u) userId = false) l).
  { intros l Hl. apply (Forall_impl _ _ _ Hl). intros u Hu. by apply String.eqb_neq. }
  unfold user_cell. fold userId. split; [|split; [|split; [|split]]].
  - destruct (conv_user_name conv) as [name|]; [|done].
    destruct (truthy (Some name)) eqn:Hn; [|done].
    apply utf16_non_empty. intros Hempty. by rewrite Hempty in Hn.
  - intros name -> Hne. by rewrite truthy_non_empty.
  - intros Hfalsy.
    assert (Hcell : match conv_user_name conv with
                    | Some name => if truthy (Some name) then utf16 name
                                   else getUserName users userId
                    | None => getUserName users userId
                    end = getUserName users userId).
    { destruct (conv_user_name conv) as [name|]; [|done]. by rewrite Hfalsy. }
    rewrite Hcell. unfold getUserName. split.
    + intros before user after -> Hbefore Huser.
      rewrite (find_first_match _ before user after (Hmiss _ Hbefore))
        by (by apply String.eqb_eq).
      split.
      * intros Hne. by rewrite truthy_non_empty.
      * by intros ->.
    + intros Hnone. by rewrite (find_no_match _ users (Hmiss _ Hnone)).
  - done.
  - subst short. unfold slice_to in *. rewrite length_take.
    destruct (utf16 userId); [done|]. cbn [length]. lia.
Qed.

Lemma user_cell_is_never_blank_witness :
  let conv userId := mkConversation "c-1" userId (Some "") "2024-01-01" None
                                    "openai" "google" 3 in
  user_cell [sample_user] (conv "пользователь-7") = utf16 "пользова"
  ∧ user_cell [sample_user] (conv "u-12345678-abcd") = utf16 "Марат".
Proof.
  intros conv.
  destruct (user_cell_is_never_blank [sample_user] (conv "пользователь-7")
              ltac:(discriminate)) as (_ & _ & H1 & _).
  destruct (H1 eq_refl) as [_ Hshort].
  destruct (user_cell_is_never_blank [sample_user] (conv "u-12345678-abcd")
              ltac:(discriminate)) as (_ & _ & H2 & _).
  destruct (H2 eq_refl) as [Hfound _].
  split.
  - rewrite Hshort; [reflexivity|]. apply Forall_singleton. discriminate.
  - destruct (Hfound [] sample_user [] eq_refl (Forall_nil_2 _) eq_refl) as [Hname _].
    rewrite Hname; [reflexivity | discriminate].
Defined.

(** ** Routes *)

Lemma append_cancel_l (p a b : string) : p +:+ a = p +:+ b → a = b.
Proof. induction p as [|c p IH]; [done|]. intros [= H]. by apply IH. Qed.

Lemma append_cons (c : Ascii.ascii) (s t : string) :
  String c s +:+ t = String c (s +:+ t).
Proof. done. Qed.

(** However the two identifiers are chosen, also with slashes inside, a URL
    ending in [/approve] is not one ending in [/reject]. *)
Lemma approve_is_not_reject (a b : string) :
  a +:+ "/approve" = b +:+ "/reject" → False.
Proof.
  revert b. induction a as [|c a IH]; intros b H.
  - change ("" +:+ "/approve") with "/approve" in H.
    do 9 (destruct b as [|? b]; [discriminate H|]; rewrite append_cons in H;
          first [discriminate H | injection H as ? H; subst]).
  - destruct b as [|d b].
    + change ("" +:+ "/reject") with "/reject" in H.
      rewrite append_cons in H. injection H as ? H. subst.
      do 8 (destruct a as [|? a]; [discriminate H|]; rewrite append_cons in H;
            first [discriminate H | injection H as ? H; subst]).
    + rewrite !append_cons in H. injection H as _ H. by apply (IH b).
Qed.

Lemma append_length (a b : string) :
  String.length (a +:+ b) = (String.length a + String.length b)%nat.
Proof. induction a as [|c a IH]; [done|]. rewrite append_cons. cbn. by rewrite IH. Qed.

Lemma append_cancel_r (s a : string) : ∀ b, a +:+ s = b +:+ s → a = b.
Proof.
  induction a as [|c a IH]; intros [|d b] H; [done| | |].
  - apply (f_equal String.length) in H. rewrite !append_length in H. cbn in H. lia.
  - apply (f_equal String.length) in H. rewrite !append_length in H. cbn in H. lia.
  - rewrite !append_cons in H. injection H as -> H. f_equal. by apply IH.
Qed.

(** X27. No two functions of the client share a route: two calls with the
    same method and the same URL go through the same exported function and
    splice the same argument into the URL, whatever the identifiers are
    (slashes inside them included). In particular the list routes are not the
    detail routes of an empty identifier, and approving a term is never
    rejecting another. *)
Theorem route_identifies_function (e1 e2 : Endpoint) :
  req_method (config_of e1) = req_method (config_of e2) →
  req_url (config_of e1) = req_url (config_of e2) →
  function_of e1 = function_of e2 ∧ path_argument e1 = path_argument e2.
Proof.
  intros Hm Hu.
  destruct e1, e2; cbn in Hm, Hu; try discriminate Hm; try discriminate Hu;
    try (apply append_cancel_l in Hu);
    try (by apply approve_is_not_reject in Hu);
    try (by symmetry in Hu; apply approve_is_not_reject in Hu);
    try (apply append_cancel_r in Hu);
    cbn; by subst.
Qed.

Lemma route_identifies_function_witness :
  path_argument (UpdateUser "u-1" [("role", JStr "admin")])
  = path_argument (UpdateUser "u-1" [("name", JStr "Anna")]).
Proof.
  apply (route_identifies_function (UpdateUser "u-1" [("role", JStr "admin")])
                                   (UpdateUser "u-1" [("name", JStr "Anna")]));
    reflexivity.
Defined.

(** ** Failed steps *)

(** X28. A failed step is not retried and leaves nothing behind outside the
    page: when the backend rejects a call of a release, a confirmation or a
    correction, the requests sent are the calls of the step up to the
    rejected one, each sent once and the rejected one last; nothing follows
    it, local storage is untouched and nothing is written to the console. *)
Theorem failed_step_is_not_retried (E : Env) (s : Transitioning) (w : World Home) :
  rejects E w s →
  let w' := exec (step_handler E s) w in
  let requests := map (request_of (localStorage (browser w))) (step_calls E w s) in
  sent (browser w') = sent (browser w) ++ requests
  ∧ NoDup (step_calls E w s)
  ∧ (∃ rejected, last requests = Some rejected
                 ∧ rejections (browser w') = rejections (browser w) ++ [rejected])
  ∧ localStorage (browser w') = localStorage (browser w)
  ∧ console (browser w') = console (browser w).
Proof.
  intros Hrej. cbv zeta. destruct s as [| |text].
  - destruct Hrej as [(r & mr & Href & Hmr & Hactive) Hrej].
    pose proof (stopRecording_active E (hook_world w) r mr Href Hmr Hactive) as Hstop.
    destruct w as [[st sid t rsp er rc tl] b].
    unfold step_calls, session_for, device_info, hook_world in *. cbn in Hrej, Hstop |- *.
    unfold_handlers. cbn. rewrite Hstop. clear Hstop. cbn.
    destruct Hrej as [[Hsid [err Hcreate]]|(sid' & err & Hsid & Hup)].
    + rewrite Hsid. cbn. rewrite Hcreate. cbn.
      split; [by destruct sid|]. split; [apply NoDup_singleton|].
      split; [|by destruct sid]. eexists. split; [done|]. by destruct sid.
    + destruct (truthy sid) eqn:Htruthy.
      * subst sid. cbn. rewrite Htruthy, Hup. cbn.
        split; [done|]. split; [apply NoDup_singleton|]. split; [|done].
        eexists. split; done.
      * destruct (env_createSession E _) as [?|[created]] eqn:Hcreate; [done|].
        cbn in Hsid. destruct (truthy (Some created)) eqn:Hcreated; [|done].
        injection Hsid as <-.
        assert (Hcalls : NoDup [CreateSession (JObj [("userAgent", JStr (env_userAgent E))]);
                                UploadAudio created (captured E rc)]).
        { apply NoDup_cons. split; [|apply NoDup_singleton].
          intros Hin. apply list_elem_of_singleton in Hin. discriminate. }
        destruct sid as [sid|]; cbn; rewrite ?Htruthy; cbn; rewrite Hcreated, Hup; cbn;
          rewrite <- ?app_assoc;
          (split; [done|]); (split; [exact Hcalls|]); (split; [|done]);
          eexists; split; done.
  - destruct Hrej as (sid & t & Hsid & Hne & Ht & Hrej).
    destruct w as [[st sid0 t0 rsp er rc tl] b]. cbn in Hsid, Ht, Hrej. subst sid0 t0.
    unfold step_calls. unfold_handlers. cbn. rewrite (truthy_non_empty sid Hne). cbn.
    destruct Hrej as [[err Hc]|(c & err & Hc & Hr)]; rewrite Hc; cbn; rewrite ?Hr; cbn;
      rewrite <- ?app_assoc;
      (split; [done|]); (split; [|split; [eexists; split; done | done]]).
    + apply NoDup_singleton.
    + apply NoDup_cons. split; [|apply NoDup_singleton].
      intros Hin. apply list_elem_of_singleton in Hin. discriminate.
  - destruct Hrej as (sid & t & Hsid & Hne & Ht & Hrej).
    destruct w as [[st sid0 t0 rsp er rc tl] b]. cbn in Hsid, Ht, Hrej. subst sid0 t0.
    unfold step_calls. unfold_handlers. cbn. rewrite (truthy_non_empty sid Hne). cbn.
    destruct Hrej as [[err Hc]|(c & err & Hc & Hr)]; rewrite Hc; cbn; rewrite ?Hr; cbn;
      rewrite <- ?app_assoc;
      (split; [done|]); (split; [|split; [eexists; split; done | done]]).
    + apply NoDup_singleton.
    + apply NoDup_cons. split; [|apply NoDup_singleton].
      intros Hin. apply list_elem_of_singleton in Hin. discriminate.
Qed.

Lemma failed_step_is_not_retried_witness :
  let heard := play [(happy_env, MouseDown); (happy_env, MouseUp)] fresh_home in
  let w' := exec (step_handler no_respond_env StepConfirm) heard in
  map req_url (new_requests heard w')
  = ["/api/voice/confirm/session-1"; "/api/voice/respond/session-1"].
Proof.
  intros heard w'.
  assert (H : rejects no_respond_env heard StepConfirm).
  { exists "session-1", sample_transcript.
    split; [reflexivity|]. split; [discriminate|]. split; [reflexivity|].
    right. exists (mkConfirmResponse true), network_error. split; reflexivity. }
  destruct (failed_step_is_not_retried no_respond_env StepConfirm heard H) as (Hsent & _).
  unfold new_requests. fold w' in Hsent. rewrite Hsent. reflexivity.
Defined.
